(** * Skyrmion model widget: lattice geometry and spin field

    A shallow embedding of the functions of [skyrmion_model_widget.ipynb]
    ([init_coordinates], [get_index], [hexagon_corners], [init_corners],
    [s_skyrmion], [get_spins]) and the properties of the lattice builder
    and of the analytic spin field.

    Numbers.  Python integers are [Z].  The notebook computes with numpy
    [float64]; here every floating point quantity is a real number of the
    Standard Library ([R]) and [np.sqrt], [np.sin], [np.cos], [np.pi] are
    [sqrt], [sin], [cos], [PI]: rounding is not modelled.

    Exceptions.  A Python call either returns or raises; the result type
    [res] keeps the exception that is raised. *)

From Stdlib Require Import ZArith Lia Reals Lra.
From stdpp Require Import base option list.

(** ** Exceptions and results *)

Inductive exn : Type :=
| ValueError
| IndexError
| ZeroDivisionError.

Inductive res (A : Type) : Type :=
| Ok (a : A)
| Raise (e : exn).

Arguments Ok {A} a.
Arguments Raise {A} e.

#[global] Instance res_ret : MRet res := fun A a => Ok a.

#[global] Instance res_bind : MBind res := fun A B k m =>
  match m with
  | Ok a => k a
  | Raise e => Raise e
  end.

#[global] Instance res_fmap : FMap res := fun A B f m =>
  match m with
  | Ok a => Ok (f a)
  | Raise e => Raise e
  end.

(** [for x in xs: s = body x s], stopping at the first exception. *)
Fixpoint for_each {S X : Type} (xs : list X) (body : X -> S -> res S) (s : S)
  : res S :=
  match xs with
  | [] => Ok s
  | x :: xs' => s' ← body x s; for_each xs' body s'
  end.

(** [[f(x) for x in xs]] for an [f] that may raise. *)
Fixpoint map_res {X Y : Type} (f : X -> res Y) (xs : list X) : res (list Y) :=
  match xs with
  | [] => Ok []
  | x :: xs' => y ← f x; ys ← map_res f xs'; Ok (y :: ys)
  end.

(** Python's [range(n)]: [0, 1, ..., n-1], empty when [n <= 0]. *)
Definition range (n : Z) : list Z := seqZ 0 n.

(** ** Arrays

    A numpy array of shape [(n, 3)] is a list of rows. *)

Definition vec3 : Type := R * R * R.
Definition vec2 : Type := R * R.

(** Indexing the first axis with a Python integer: negative indices count
    from the end, anything outside [-len, len) raises [IndexError]. *)
Definition np_index (len : nat) (idx : Z) : res nat :=
  let n := Z.of_nat len in
  if ((0 <=? idx) && (idx <? n))%Z then Ok (Z.to_nat idx)
  else if ((- n <=? idx) && (idx <? 0))%Z then Ok (Z.to_nat (idx + n))
  else Raise IndexError.

(** [a[idx]] *)
Definition getitem {A : Type} (a : list A) (idx : Z) : res A :=
  k ← np_index (length a) idx;
  match a !! k with
  | Some v => Ok v
  | None => Raise IndexError
  end.

(** [a[idx] = v] *)
Definition setitem {A : Type} (a : list A) (idx : Z) (v : A) : res (list A) :=
  k ← np_index (length a) idx;
  Ok (<[k:=v]> a).

(** [np.zeros((n, 3))]: numpy refuses a negative dimension. *)
Definition np_zeros3 (n : Z) : res (list vec3) :=
  if (n <? 0)%Z then Raise ValueError
  else Ok (replicate (Z.to_nat n) (0%R, 0%R, 0%R)).

(** ** The lattice builder *)

(** [get_index(nx, ny, i, j)] *)
Definition get_index (nx ny i j : Z) : Z :=
  if ((i <? 0) || (j <? 0) || (i >=? nx) || (j >=? ny))%Z then (-1)%Z
  else (i + j * nx)%Z.

Section Geometry.
Local Open Scope R_scope.

(** The row written at column [i] of row [j] by [init_coordinates]:
    [sign] is 1 on rows with [j % 2 == 0] and 0 on the others. *)
Definition lattice_row (radius : R) (i j : Z) : vec3 :=
  let dy := sqrt 3 * radius in
  let dx := 2 * radius in
  let h := dx * 2 / sqrt 3 in
  let sign := if (j mod 2 =? 0)%Z then 1%Z else 0%Z in
  (IZR sign * dx / 2 + IZR i * dx + dx / 2,
   IZR j * dy + h / 2,
   0).

(** [init_coordinates(nx, ny, radius)] *)
Definition init_coordinates (nx ny : Z) (radius : R) : res (list vec3) :=
  let n := (nx * ny)%Z in
  coordinates ← np_zeros3 n;
  for_each (range ny) (fun j coordinates =>
    for_each (range nx) (fun i coordinates =>
      let index := get_index nx ny i j in
      let r := lattice_row radius i j in
      setitem coordinates index r) coordinates) coordinates.

(** The lattice point of row [j], column [i] as the specification writes
    it: [x = offset(j) + i*dx + dx/2], [y = j*dy + h/2], with
    [offset(j) = dx/2] on even rows and [0] on odd rows. *)
Definition spec_offset (radius : R) (j : Z) : R :=
  let dx := 2 * radius in
  if Z.even j then dx / 2 else 0.

Definition spec_point (radius : R) (i j : Z) : vec3 :=
  let dx := 2 * radius in
  let dy := sqrt 3 * radius in
  let h := dx * 2 / sqrt 3 in
  (spec_offset radius j + IZR i * dx + dx / 2, IZR j * dy + h / 2, 0).

(** [hexagon_corners(x, y, radius)] *)
Definition hexagon_corners (x y radius : R) : list vec3 :=
  let angle_deg := (fun i => 60 * i + 30)%Z <$> range 6 in
  let angle_rad := (fun a => IZR a * PI / 180) <$> angle_deg in
  (fun theta => (x + radius * cos theta, y + radius * sin theta, 0))
    <$> angle_rad.

(** [corners[:, :, :2]] on the array made from a list of hexagons.  The
    array of an empty list has one axis only, and indexing it with three
    raises [IndexError]. *)
Definition drop_z (corners : list (list vec3)) : res (list (list vec2)) :=
  match corners with
  | [] => Raise IndexError
  | _ => Ok ((fun hexagon : list vec3 =>
                (fun p : vec3 => (p.1.1, p.1.2)) <$> hexagon) <$> corners)
  end.

(** [init_corners(coordinates, nx, ny, radius)].  The body reads the
    lattice through the notebook's global [c], which is the first
    argument here; [coordinates] is the function's own parameter.
    [h * 0.5] is written [h * (1 / 2)]. *)
Definition init_corners (c : list vec3) (coordinates : list vec3)
    (nx ny : Z) (radius : R) : res (list (list vec2)) :=
  let dy := sqrt 3 * radius in
  let dx := 2 * radius in
  let h := dx * 2 / sqrt 3 in
  corners ← for_each (range ny) (fun j corners =>
    for_each (range nx) (fun i corners =>
      let index := get_index nx ny i j in
      row ← getitem c index;
      let x := row.1.1 in
      let y := row.1.2 in
      Ok (corners ++ [hexagon_corners x y (h * (1 / 2))])) corners) [];
  drop_z corners.

(** The hexagonal cell around a lattice point as the specification writes
    it: [hexagon_corners] at the point's [(x, y)] with circumradius [h/2],
    [h = 2*radius * 2/sqrt(3)], the [z] of the corners dropped. *)
Definition cell_at (radius : R) (p : vec3) : list vec2 :=
  let h := 2 * radius * 2 / sqrt 3 in
  (fun q : vec3 => (q.1.1, q.1.2)) <$> hexagon_corners p.1.1 p.1.2 (h / 2).

(** ** The spin field *)

(** [np.arctan2(y, x)]: the angle of the point [(x, y)], in (-PI, PI],
    and 0 at the origin. *)
Definition arctan2 (y x : R) : R :=
  if Rlt_dec 0 x then atan (y / x)
  else if Rlt_dec x 0 then
    (if Rle_dec 0 y then atan (y / x) + PI else atan (y / x) - PI)
  else if Rlt_dec 0 y then PI / 2
  else if Rlt_dec y 0 then - (PI / 2)
  else 0.

(** [np.pi / r_sk] for a Python number [r_sk]. *)
Definition py_div (a b : R) : res R :=
  if Req_dec_T b 0 then Raise ZeroDivisionError else Ok (a / b).

(** [s_skyrmion(r, r_sk, center, helicity, vorticity, chirality)] *)
Definition s_skyrmion (r : vec3) (r_sk : R) (center : vec2)
    (helicity vorticity chirality : R) : res vec3 :=
  let x := r.1.1 - center.1 in
  let y := r.1.2 - center.2 in
  let rho := sqrt (x ^ 2 + y ^ 2) in
  let psi := vorticity * arctan2 y x + helicity in
  k ← py_div PI r_sk;
  if Rle_dec rho r_sk then
    Ok (chirality * sin (k * rho) * cos psi,
        chirality * sin (k * rho) * sin psi,
        - chirality * cos (k * rho))
  else
    Ok (0, 0, chirality).

(** [s_skyrmion_v]: [s_skyrmion] on every row of the array. *)
Definition s_skyrmion_v (coordinates : list vec3) (r_sk : R) (center : vec2)
    (helicity vorticity chirality : R) : res (list vec3) :=
  map_res (fun r => s_skyrmion r r_sk center helicity vorticity chirality)
          coordinates.

Definition norm3 (s : vec3) : R :=
  sqrt (s.1.1 ^ 2 + s.1.2 ^ 2 + s.2 ^ 2).

(** One row of [spin[spin_n > 0] /= spin_n[spin_n > 0][:, np.newaxis]] *)
Definition divide_row (s : vec3) (n : R) : vec3 :=
  if Rlt_dec 0 n then (s.1.1 / n, s.1.2 / n, s.2 / n) else s.

(** [get_spins(coordinates, r_sk, center, helicity, vorticity, chirality)] *)
Definition get_spins (coordinates : list vec3) (r_sk : R) (center : vec2)
    (helicity vorticity chirality : R) : res (list vec3) :=
  spin ← s_skyrmion_v coordinates r_sk center helicity vorticity chirality;
  let spin_n := norm3 <$> spin in
  Ok (zip_with divide_row spin spin_n).

Definition vneg (s : vec3) : vec3 := (- s.1.1, - s.1.2, - s.2).

End Geometry.

(** The iterations of [for j in range(ny): for i in range(nx)], in the
    order in which the loop body runs. *)
Definition iterations (nx ny : Z) : list (Z * Z) :=
  j ← range ny; i ← range nx; [(i, j)].

(** ** The notebook's setup cell and measures

    The cell that follows the functions builds the lattice, takes the
    middle of its bounding box as the center of the skyrmion, and computes
    the cells and the first spin field. *)

Section Setup.
Local Open Scope R_scope.

(** [a.max()] and [a.min()] of a one-dimensional array: numpy raises
    [ValueError] on an empty one. *)
Definition np_max (a : list R) : res R :=
  match a with
  | [] => Raise ValueError
  | x :: a' => Ok (foldl Rmax x a')
  end.

Definition np_min (a : list R) : res R :=
  match a with
  | [] => Raise ValueError
  | x :: a' => Ok (foldl Rmin x a')
  end.

(** [(a.max() - a.min()) * 0.5 + a.min()] *)
Definition midrange (a : list R) : res R :=
  hi ← np_max a;
  lo ← np_min a;
  lo' ← np_min a;
  Ok ((hi - lo) * (1 / 2) + lo').

(** [cenx] and [ceny]: the midranges of the columns [c[:, 0]] and
    [c[:, 1]]. *)
Definition lattice_center (c : list vec3) : res vec2 :=
  cenx ← midrange ((fun p : vec3 => p.1.1) <$> c);
  ceny ← midrange ((fun p : vec3 => p.1.2) <$> c);
  Ok (cenx, ceny).

(** The setup cell, with its constants [nx, ny, radius = 30, 30, 1] and
    [r_sk = 14] as arguments.  [get_spins] is called with its defaults
    [helicity = 0], [vorticity = 1], [chirality = 1]; [init_corners] is
    passed [c], which is also the global it reads. *)
Definition setup (nx ny : Z) (radius r_sk : R)
  : res (list vec3 * list (list vec2) * list vec3) :=
  c ← init_coordinates nx ny radius;
  center ← lattice_center c;
  corners ← init_corners c c nx ny radius;
  spin ← get_spins c r_sk center 0 1 1;
  Ok (c, corners, spin).

(** Distance of two points of the plane, and of two lattice points in the
    plane of the lattice. *)
Definition dist2 (p q : vec2) : R :=
  sqrt ((p.1 - q.1) ^ 2 + (p.2 - q.2) ^ 2).

Definition dist_xy (p q : vec3) : R := dist2 p.1 q.1.

(** A spin with its in-plane part reversed, a spin scaled by a factor, and
    a spin divided by its length as [get_spins] does it. *)
Definition flip_xy (s : vec3) : vec3 := (- s.1.1, - s.1.2, s.2).

Definition scale3 (a : R) (s : vec3) : vec3 := (a * s.1.1, a * s.1.2, a * s.2).

Definition normalise (s : vec3) : vec3 := divide_row s (norm3 s).

End Setup.

(** ** Loops *)

Lemma bind_Ok {A B : Type} (a : A) (k : A -> res B) : (x ← Ok a; k x) = k a.
Proof. reflexivity. Qed.

Section Loops.
Context {S X : Type}.
Implicit Types (s : S) (xs : list X) (body : X -> S -> res S).

Lemma for_each_app xs1 xs2 body s :
  for_each (xs1 ++ xs2) body s = s' ← for_each xs1 body s; for_each xs2 body s'.
Proof.
  revert s. induction xs1 as [|x xs1 IH]; intros s; simpl; [done|].
  destruct (body x s) as [s'|e]; simpl; [apply IH | done].
Qed.

Lemma for_each_snoc xs x body s :
  for_each (xs ++ [x]) body s = s' ← for_each xs body s; body x s'.
Proof.
  rewrite for_each_app. destruct (for_each xs body s) as [s'|e]; simpl; [|done].
  by destruct (body x s').
Qed.

Lemma for_each_ext xs body1 body2 s :
  (forall x s', x ∈ xs -> body1 x s' = body2 x s') ->
  for_each xs body1 s = for_each xs body2 s.
Proof.
  revert s. induction xs as [|x xs IH]; intros s Hb; simpl; [done|].
  rewrite (Hb x s) by left.
  destruct (body2 x s) as [s'|e]; simpl; [|done].
  apply IH. intros y s'' Hy. apply Hb. by right.
Qed.

End Loops.

(** The two nested loops run the body once per element of [iterations]. *)
Lemma for_each_nested {S : Type} (nx ny : Z) (body : Z -> Z -> S -> res S) s :
  for_each (range ny) (fun j s => for_each (range nx) (fun i s => body i j s) s) s
  = for_each (iterations nx ny) (fun p s => body p.1 p.2 s) s.
Proof.
  unfold iterations. generalize (range ny) as js. intros js. revert s.
  induction js as [|j js IH]; intros s; [done|].
  cbn [for_each]. rewrite bind_cons, for_each_app.
  assert (for_each (range nx) (fun i s0 => body i j s0) s
          = for_each (i ← range nx; [(i, j)]) (fun p s0 => body p.1 p.2 s0) s)
    as ->.
  { generalize (range nx) as l. intros l. revert s.
    induction l as [|i l IHl]; intros s; [done|].
    cbn [for_each]. rewrite bind_cons. cbn [app for_each fst snd].
    destruct (body i j s) as [s'|e]; simpl; [apply IHl | done]. }
  destruct (for_each _ _ s) as [s'|e]; simpl; [apply IH | done].
Qed.

Lemma elem_of_iterations nx ny i j :
  (i, j) ∈ iterations nx ny <-> (0 <= i < nx)%Z /\ (0 <= j < ny)%Z.
Proof.
  unfold iterations, range. rewrite list_elem_of_bind. split.
  - intros (j' & Hin & Hj'). apply list_elem_of_bind in Hin as (i' & Hin & Hi').
    apply list_elem_of_singleton in Hin. injection Hin as -> ->.
    apply elem_of_seqZ in Hj', Hi'. lia.
  - intros [Hi Hj]. exists j. split; [|apply elem_of_seqZ; lia].
    apply list_elem_of_bind. exists i. split; [by apply list_elem_of_singleton|].
    apply elem_of_seqZ. lia.
Qed.

(** ** Index arithmetic *)

Lemma get_index_valid nx ny i j :
  (0 <= i < nx)%Z -> (0 <= j < ny)%Z -> get_index nx ny i j = (i + j * nx)%Z.
Proof.
  intros Hi Hj. unfold get_index.
  destruct (i <? 0)%Z eqn:E1; [lia|].
  destruct (j <? 0)%Z eqn:E2; [lia|].
  destruct (i >=? nx)%Z eqn:E3; [lia|].
  destruct (j >=? ny)%Z eqn:E4; [lia|]. done.
Qed.

Lemma get_index_invalid nx ny i j :
  ~ ((0 <= i < nx)%Z /\ (0 <= j < ny)%Z) -> get_index nx ny i j = (-1)%Z.
Proof.
  intros Hn. unfold get_index.
  destruct (i <? 0)%Z eqn:E1; [done|].
  destruct (j <? 0)%Z eqn:E2; [done|].
  destruct (i >=? nx)%Z eqn:E3; [done|].
  destruct (j >=? ny)%Z eqn:E4; [done|]. lia.
Qed.

Lemma linear_index_range nx ny i j :
  (0 <= i < nx)%Z -> (0 <= j < ny)%Z -> (0 <= i + j * nx < nx * ny)%Z.
Proof. intros Hi Hj. nia. Qed.

Lemma linear_index_inj nx i j i' j' :
  (0 <= i < nx)%Z -> (0 <= i' < nx)%Z ->
  (i + j * nx = i' + j' * nx)%Z -> i = i' /\ j = j'.
Proof.
  intros Hi Hi' Heq.
  assert (j = j') as ->; [|lia].
  destruct (Z.lt_trichotomy j j') as [Hlt|[->|Hgt]]; [nia|done|nia].
Qed.

Lemma linear_index_surj nx ny k :
  (1 <= nx)%Z -> (0 <= k < nx * ny)%Z ->
  exists i j, (0 <= i < nx)%Z /\ (0 <= j < ny)%Z /\ (i + j * nx = k)%Z.
Proof.
  intros Hnx' Hk.
  assert (0 < nx)%Z as Hnx by lia.
  exists (k mod nx)%Z, (k / nx)%Z.
  pose proof (Z.mod_pos_bound k nx Hnx).
  pose proof (Z.div_mod k nx ltac:(lia)).
  split; [lia|]. split; [|lia].
  split; [apply Z.div_pos; lia|].
  apply Z.div_lt_upper_bound; lia.
Qed.

(** ** Array reads and writes *)

Lemma np_index_in_range len idx :
  (0 <= idx < Z.of_nat len)%Z -> np_index len idx = Ok (Z.to_nat idx).
Proof.
  intros H. unfold np_index.
  destruct (0 <=? idx)%Z eqn:E1; [|lia].
  destruct (idx <? Z.of_nat len)%Z eqn:E2; [done|lia].
Qed.

Lemma setitem_in_range {A : Type} (a : list A) idx v :
  (0 <= idx < Z.of_nat (length a))%Z ->
  setitem a idx v = Ok (<[Z.to_nat idx:=v]> a).
Proof. intros H. unfold setitem. by rewrite np_index_in_range. Qed.

Lemma getitem_in_range {A : Type} (a : list A) idx v :
  (0 <= idx)%Z -> a !! Z.to_nat idx = Some v -> getitem a idx = Ok v.
Proof.
  intros H0 Hl. unfold getitem.
  rewrite np_index_in_range; [simpl; by rewrite Hl|].
  apply lookup_lt_Some in Hl. lia.
Qed.

(** A loop of in-range writes returns an array of the same length that
    holds, at each index written, the value written there, and elsewhere
    what the array held before. *)
Lemma for_each_setitem {A X : Type} (idx : X -> Z) (val : X -> A)
    (xs : list X) (a : list A) :
  (forall x, x ∈ xs -> (0 <= idx x < Z.of_nat (length a))%Z) ->
  (forall x x', x ∈ xs -> x' ∈ xs -> idx x = idx x' -> val x = val x') ->
  exists a',
    for_each xs (fun x a => setitem a (idx x) (val x)) a = Ok a' /\
    length a' = length a /\
    (forall x, x ∈ xs -> a' !! Z.to_nat (idx x) = Some (val x)) /\
    (forall k, (forall x, x ∈ xs -> Z.to_nat (idx x) <> k) -> a' !! k = a !! k).
Proof.
  induction xs as [|x xs IH] using rev_ind; intros Hrange Hdet.
  - exists a. split; [done|]. split; [done|]. split; [|done].
    intros x Hx. by apply elem_of_nil in Hx.
  - destruct IH as (a1 & Hrun & Hlen & Hwritten & Hkept).
    { intros y Hy. apply Hrange, elem_of_app. by left. }
    { intros y y' Hy Hy'. apply Hdet; apply elem_of_app; by left. }
    assert (x ∈ xs ++ [x]) as Hx.
    { apply elem_of_app. right. by apply list_elem_of_singleton. }
    pose proof (Hrange x Hx) as Hxr.
    exists (<[Z.to_nat (idx x):=val x]> a1).
    rewrite for_each_snoc, Hrun. simpl.
    rewrite setitem_in_range by (rewrite Hlen; lia).
    split; [done|]. split; [by rewrite length_insert|]. split.
    + intros y Hy.
      destruct (decide (idx y = idx x)) as [Heq|Hne].
      * rewrite Heq, (Hdet y x Hy Hx Heq).
        apply list_lookup_insert_eq. rewrite Hlen. lia.
      * pose proof (Hrange y Hy) as Hyr.
        rewrite list_lookup_insert_ne by lia.
        apply elem_of_app in Hy as [Hy|Hy]; [by apply Hwritten|].
        apply list_elem_of_singleton in Hy. by subst.
    + intros k Hk.
      rewrite list_lookup_insert_ne by (apply Hk, Hx).
      apply Hkept. intros y Hy. apply Hk, elem_of_app. by left.
Qed.

(** ** The lattice *)

Section Lattice.
Local Open Scope R_scope.

Lemma lattice_row_spec radius i j : lattice_row radius i j = spec_point radius i j.
Proof.
  unfold lattice_row, spec_point, spec_offset.
  rewrite Zmod_even. destruct (Z.even j); simpl; f_equal; f_equal; lra.
Qed.

Lemma init_coordinates_loop nx ny radius :
  init_coordinates nx ny radius =
  coordinates ← np_zeros3 (nx * ny);
  for_each (iterations nx ny)
    (fun p a => setitem a (get_index nx ny p.1 p.2) (lattice_row radius p.1 p.2))
    coordinates.
Proof.
  unfold init_coordinates. destruct (np_zeros3 (nx * ny)) as [a|e]; simpl; [|done].
  apply (for_each_nested nx ny
    (fun i j a => setitem a (get_index nx ny i j) (lattice_row radius i j))).
Qed.

Lemma init_coordinates_raises nx ny radius :
  (nx * ny < 0)%Z -> init_coordinates nx ny radius = Raise ValueError.
Proof.
  intros Hn. unfold init_coordinates, np_zeros3.
  destruct (nx * ny <? 0)%Z eqn:E; [done|lia].
Qed.

(** Whenever numpy can allocate the array, both loops run to the end and
    every row of the grid holds its lattice point. *)
Lemma init_coordinates_ok nx ny radius :
  (0 <= nx * ny)%Z ->
  exists coords,
    init_coordinates nx ny radius = Ok coords /\
    length coords = Z.to_nat (nx * ny) /\
    (forall i j, (0 <= i < nx)%Z -> (0 <= j < ny)%Z ->
       coords !! Z.to_nat (i + j * nx) = Some (lattice_row radius i j)).
Proof.
  intros Hn. rewrite init_coordinates_loop. unfold np_zeros3.
  destruct (nx * ny <? 0)%Z eqn:E; [lia|]. simpl.
  set (zeros := replicate (Z.to_nat (nx * ny)) (0, 0, 0)).
  assert (@length vec3 zeros = Z.to_nat (nx * ny)) as Hlen
    by apply length_replicate.
  destruct (for_each_setitem
              (fun p : Z * Z => get_index nx ny p.1 p.2)
              (fun p : Z * Z => lattice_row radius p.1 p.2)
              (iterations nx ny) zeros) as (a' & Hrun & Hlen' & Hwritten & _).
  - intros [i j] Hin. apply elem_of_iterations in Hin as [Hi Hj].
    rewrite Hlen. cbn [fst snd]. rewrite get_index_valid by done.
    pose proof (linear_index_range nx ny i j Hi Hj). lia.
  - intros [i j] [i' j'] Hin Hin'. cbn [fst snd].
    apply elem_of_iterations in Hin as [Hi Hj], Hin' as [Hi' Hj'].
    rewrite !get_index_valid by done. intros Heq.
    by destruct (linear_index_inj nx i j i' j' Hi Hi' Heq) as [-> ->].
  - exists a'. split; [exact Hrun|]. split; [congruence|].
    intros i j Hi Hj.
    specialize (Hwritten (i, j)). cbn [fst snd] in Hwritten.
    rewrite get_index_valid in Hwritten by done.
    apply Hwritten, elem_of_iterations. done.
Qed.

Lemma init_coordinates_getitem nx ny radius coords i j :
  init_coordinates nx ny radius = Ok coords ->
  (0 <= i < nx)%Z -> (0 <= j < ny)%Z ->
  getitem coords (get_index nx ny i j) = Ok (lattice_row radius i j).
Proof.
  intros Hrun Hi Hj.
  destruct (init_coordinates_ok nx ny radius) as (coords' & Hrun' & _ & Hrow);
    [nia|].
  rewrite Hrun in Hrun'. injection Hrun' as <-.
  rewrite get_index_valid by done.
  apply getitem_in_range; [nia|]. by apply Hrow.
Qed.

End Lattice.

Section LatticeClaims.
Local Open Scope R_scope.

(** C7.  In the array returned by [init_coordinates], the point of row [j],
    column [i] is stored at linear index [i + j*nx] and has coordinates
    [x = offset(j) + i*dx + dx/2], [y = j*dy + h/2] (and [z = 0]), with
    [dx = 2*radius], [dy = sqrt(3)*radius], [h = dx*2/sqrt(3)] and
    [offset(j) = dx/2] for even [j], [0] for odd [j]. *)
Theorem init_coordinates_point nx ny radius i j :
  (1 <= nx)%Z -> (1 <= ny)%Z -> 0 < radius ->
  (0 <= i < nx)%Z -> (0 <= j < ny)%Z ->
  exists coords,
    init_coordinates nx ny radius = Ok coords /\
    get_index nx ny i j = (i + j * nx)%Z /\
    getitem coords (i + j * nx) = Ok (spec_point radius i j).
Proof.
  intros _ _ _ Hi Hj.
  destruct (init_coordinates_ok nx ny radius) as (coords & Hrun & _ & _); [nia|].
  exists coords. split; [done|]. split; [by apply get_index_valid|].
  rewrite <- lattice_row_spec, <- (get_index_valid nx ny i j) by done.
  by apply (init_coordinates_getitem nx ny radius).
Qed.

Lemma init_coordinates_point_witness :
  exists coords,
    init_coordinates 2 3 1 = Ok coords /\
    get_index 2 3 1 2 = (1 + 2 * 2)%Z /\
    getitem coords (1 + 2 * 2) = Ok (spec_point 1 1 2).
Proof. apply (init_coordinates_point 2 3 1 1 2); lia || lra. Defined.

(** C8.  For [nx >= 1] and [ny >= 1], [get_index] sends the valid pairs
    [(i, j)] one-to-one onto [0, nx*ny) by [i + j*nx], returns the sentinel
    [-1] on every other pair, and [init_coordinates] returns exactly
    [nx*ny] points. *)
Theorem get_index_bijection nx ny :
  (1 <= nx)%Z -> (1 <= ny)%Z ->
  (forall i j, (0 <= i < nx)%Z -> (0 <= j < ny)%Z ->
     get_index nx ny i j = (i + j * nx)%Z /\
     (0 <= get_index nx ny i j < nx * ny)%Z) /\
  (forall i j i' j',
     (0 <= i < nx)%Z -> (0 <= j < ny)%Z ->
     (0 <= i' < nx)%Z -> (0 <= j' < ny)%Z ->
     get_index nx ny i j = get_index nx ny i' j' -> i = i' /\ j = j') /\
  (forall k, (0 <= k < nx * ny)%Z ->
     exists i j, (0 <= i < nx)%Z /\ (0 <= j < ny)%Z /\ get_index nx ny i j = k) /\
  (forall i j, ~ ((0 <= i < nx)%Z /\ (0 <= j < ny)%Z) ->
     get_index nx ny i j = (-1)%Z) /\
  (forall radius, exists coords,
     init_coordinates nx ny radius = Ok coords /\
     Z.of_nat (length coords) = (nx * ny)%Z).
Proof.
  intros Hnx Hny. split; [|split; [|split; [|split]]].
  - intros i j Hi Hj. rewrite get_index_valid by done.
    split; [done|]. by apply linear_index_range.
  - intros i j i' j' Hi Hj Hi' Hj'. rewrite !get_index_valid by done.
    by apply linear_index_inj.
  - intros k Hk.
    destruct (linear_index_surj nx ny k Hnx Hk) as (i & j & Hi & Hj & Heq).
    exists i, j. by rewrite get_index_valid.
  - apply get_index_invalid.
  - intros radius.
    destruct (init_coordinates_ok nx ny radius) as (coords & Hrun & Hlen & _);
      [nia|].
    exists coords. split; [done|]. rewrite Hlen. nia.
Qed.

Lemma get_index_bijection_witness :
  get_index 3 2 2 1 = 5%Z /\ get_index 3 2 3 1 = (-1)%Z.
Proof.
  destruct (get_index_bijection 3 2) as (Hv & _ & _ & Hs & _); [lia|lia|].
  split.
  - apply (Hv 2 1)%Z; lia.
  - apply (Hs 3 1)%Z. lia.
Defined.

(** C4 as stated fails: [init_coordinates] checks none of its arguments,
    and an empty grid, a radius that is not positive and two negative
    dimensions are all accepted. *)
Lemma init_coordinates_accepts_bad_arguments :
  init_coordinates 0 1 1 = Ok [] /\
  init_coordinates 1 0 1 = Ok [] /\
  init_coordinates 1 1 0 = Ok [(0, 0, 0)] /\
  init_coordinates (-1) (-1) 1 = Ok [(0, 0, 0)].
Proof.
  split; [reflexivity|]. split; [reflexivity|]. split; [|reflexivity].
  unfold init_coordinates, lattice_row. simpl.
  do 3 f_equal. f_equal; lra.
Qed.

(** C4, as the code has it.  [init_coordinates] validates nothing and has
    no InvalidArgument error: for every radius it succeeds with exactly
    [nx*ny] points whenever [nx*ny >= 0], and it fails only when
    [nx*ny < 0], with the [ValueError] numpy raises for the negative array
    dimension. *)
Theorem init_coordinates_outcome nx ny radius :
  match init_coordinates nx ny radius with
  | Ok coords => (0 <= nx * ny)%Z /\ Z.of_nat (length coords) = (nx * ny)%Z
  | Raise e => (nx * ny < 0)%Z /\ e = ValueError
  end.
Proof.
  destruct (Z.lt_ge_cases (nx * ny) 0) as [Hneg|Hpos].
  - by rewrite init_coordinates_raises.
  - destruct (init_coordinates_ok nx ny radius Hpos) as (coords & -> & Hlen & _).
    split; [done|]. rewrite Hlen. lia.
Qed.

(** C6 as stated fails: on the lattice of two rows and one column with
    radius 1, the point of the odd row 1 is not [dx/2] to the right of the
    point of the even row 0, it is [dx/2] to its left. *)
Lemma odd_rows_not_shifted_right :
  exists coords p_even p_odd,
    init_coordinates 1 2 1 = Ok coords /\
    getitem coords (get_index 1 2 0 0) = Ok p_even /\
    getitem coords (get_index 1 2 0 1) = Ok p_odd /\
    p_odd.1.1 <> p_even.1.1 + (2 * 1) / 2 /\
    p_odd.1.1 = p_even.1.1 - (2 * 1) / 2.
Proof.
  destruct (init_coordinates_ok 1 2 1) as (coords & Hrun & _ & _); [lia|].
  exists coords, (lattice_row 1 0 0), (lattice_row 1 0 1).
  split; [done|].
  split; [apply (init_coordinates_getitem 1 2 1); [done|lia|lia]|].
  split; [apply (init_coordinates_getitem 1 2 1); [done|lia|lia]|].
  unfold lattice_row. simpl. split; lra.
Qed.

(** C6, as the code has it.  In the lattice of [init_coordinates] the
    even-indexed rows are the shifted ones: in every column, the point of
    an even row lies [dx/2] to the right of the point of an odd row, with
    [dx = 2*radius]. *)
Theorem even_rows_shifted_right nx ny radius coords i j_even j_odd :
  init_coordinates nx ny radius = Ok coords ->
  (0 <= i < nx)%Z -> (0 <= j_even < ny)%Z -> (0 <= j_odd < ny)%Z ->
  Z.even j_even = true -> Z.odd j_odd = true ->
  exists p_even p_odd,
    getitem coords (get_index nx ny i j_even) = Ok p_even /\
    getitem coords (get_index nx ny i j_odd) = Ok p_odd /\
    p_even.1.1 = p_odd.1.1 + (2 * radius) / 2.
Proof.
  intros Hrun Hi He Ho Heven Hodd.
  exists (lattice_row radius i j_even), (lattice_row radius i j_odd).
  split; [by apply (init_coordinates_getitem nx ny radius)|].
  split; [by apply (init_coordinates_getitem nx ny radius)|].
  rewrite !lattice_row_spec. unfold spec_point, spec_offset. cbn [fst snd].
  rewrite Heven. rewrite <- Z.negb_even in Hodd.
  destruct (Z.even j_odd); [done|]. lra.
Qed.

Lemma even_rows_shifted_right_witness :
  exists p_even p_odd,
    getitem [lattice_row 1 0 0; lattice_row 1 0 1] (get_index 1 2 0 0)
      = Ok p_even /\
    getitem [lattice_row 1 0 0; lattice_row 1 0 1] (get_index 1 2 0 1)
      = Ok p_odd /\
    p_even.1.1 = p_odd.1.1 + (2 * 1) / 2.
Proof.
  apply (even_rows_shifted_right 1 2 1 _ 0 0 1);
    [reflexivity | lia | lia | lia | reflexivity | reflexivity].
Defined.

End LatticeClaims.

(** ** The cells *)

Lemma bind_singleton_fmap {A B : Type} (f : A -> B) (l : list A) :
  (x ← l; [f x]) = f <$> l.
Proof. induction l as [|x l IH]; [done|]. rewrite bind_cons, IH. done. Qed.

(** Read in loop order, the linear indices of the grid count up from 0. *)
Lemma iterations_indices nx ny :
  (0 <= nx)%Z -> (0 <= ny)%Z ->
  (fun p : Z * Z => (p.1 + p.2 * nx)%Z) <$> iterations nx ny = seqZ 0 (nx * ny).
Proof.
  intros Hnx Hny. unfold iterations, range.
  rewrite <- (Z2Nat.id ny Hny). generalize (Z.to_nat ny) as n. clear ny Hny.
  induction n as [|n IH].
  - simpl. by rewrite Z.mul_0_r.
  - rewrite seqZ_S, bind_app, fmap_app, IH. simpl.
    rewrite app_nil_r, bind_singleton_fmap, <- list_fmap_compose.
    replace (nx * Z.of_nat (S n))%Z with (nx * Z.of_nat n + nx)%Z by lia.
    rewrite seqZ_app by lia. f_equal.
    replace (0 + nx * Z.of_nat n)%Z with (nx * Z.of_nat n + 0)%Z by lia.
    rewrite <- (fmap_add_seqZ (nx * Z.of_nat n) 0 nx).
    apply list_fmap_ext. intros k i Hi. simpl. lia.
Qed.

Lemma length_iterations nx ny :
  (0 <= nx)%Z -> (0 <= ny)%Z -> length (iterations nx ny) = Z.to_nat (nx * ny).
Proof.
  intros Hnx Hny.
  rewrite <- (length_fmap (fun p : Z * Z => (p.1 + p.2 * nx)%Z)).
  by rewrite iterations_indices, length_seqZ.
Qed.

Lemma lookup_iterations nx ny k p :
  (0 <= nx)%Z -> (0 <= ny)%Z -> iterations nx ny !! k = Some p ->
  (0 <= p.1 < nx)%Z /\ (0 <= p.2 < ny)%Z /\ (p.1 + p.2 * nx)%Z = Z.of_nat k.
Proof.
  intros Hnx Hny Hk.
  assert (p ∈ iterations nx ny) as Hin by (apply list_elem_of_lookup; eauto).
  destruct p as [i j]. apply elem_of_iterations in Hin as [Hi Hj].
  split; [done|]. split; [done|].
  pose proof (iterations_indices nx ny Hnx Hny) as Hidx.
  apply (f_equal (fun l => l !! k)) in Hidx.
  rewrite list_lookup_fmap, Hk in Hidx. simpl in Hidx.
  symmetry in Hidx. apply lookup_seqZ in Hidx. simpl. lia.
Qed.

Lemma map_res_Forall2 {X Y : Type} (f : X -> res Y) xs ys :
  Forall2 (fun x y => f x = Ok y) xs ys -> map_res f xs = Ok ys.
Proof.
  induction 1 as [|x y xs ys Hxy _ IH]; [done|].
  simpl. rewrite Hxy. simpl. rewrite IH. done.
Qed.

(** A loop that appends one item per iteration is a comprehension. *)
Lemma for_each_append {X A B : Type} (g : X -> res A) (f : A -> B) xs acc :
  for_each xs (fun x acc => a ← g x; Ok (acc ++ [f a])) acc
  = ys ← map_res g xs; Ok (acc ++ (f <$> ys)).
Proof.
  revert acc. induction xs as [|x xs IH]; intros acc; simpl.
  - by rewrite app_nil_r.
  - destruct (g x) as [a|e]; simpl; [|done]. rewrite IH.
    destruct (map_res g xs) as [ys|e]; simpl; [|done].
    by rewrite <- app_assoc.
Qed.

Section Cells.
Local Open Scope R_scope.

Lemma init_corners_loop c coordinates nx ny radius :
  init_corners c coordinates nx ny radius =
  rows ← map_res (fun p => getitem c (get_index nx ny p.1 p.2)) (iterations nx ny);
  drop_z ((fun row : vec3 =>
             hexagon_corners row.1.1 row.1.2 (2 * radius * 2 / sqrt 3 * (1 / 2)))
          <$> rows).
Proof.
  unfold init_corners.
  rewrite (for_each_nested nx ny (fun i j corners =>
    row ← getitem c (get_index nx ny i j);
    Ok (corners ++
        [hexagon_corners row.1.1 row.1.2 (2 * radius * 2 / sqrt 3 * (1 / 2))]))).
  rewrite (for_each_append
    (fun p : Z * Z => getitem c (get_index nx ny p.1 p.2))
    (fun row : vec3 =>
       hexagon_corners row.1.1 row.1.2 (2 * radius * 2 / sqrt 3 * (1 / 2)))).
  by destruct (map_res _ _).
Qed.

(** What [init_corners] returns is read off the global lattice [c]: when
    [c] holds the [nx*ny] rows of the grid, the result is the cell around
    each row of [c], in order. *)
Lemma init_corners_reads_c c coordinates nx ny radius :
  (1 <= nx)%Z -> (1 <= ny)%Z -> Z.of_nat (length c) = (nx * ny)%Z ->
  init_corners c coordinates nx ny radius = Ok (cell_at radius <$> c).
Proof.
  intros Hnx Hny Hlen. rewrite init_corners_loop.
  rewrite (map_res_Forall2 _ _ c).
  - assert (forall row : vec3,
              (fun p : vec3 => (p.1.1, p.1.2)) <$>
                hexagon_corners row.1.1 row.1.2
                  (2 * radius * 2 / sqrt 3 * (1 / 2))
              = cell_at radius row) as Hcell.
    { intros row. unfold cell_at. simpl.
      by replace (2 * radius * 2 / sqrt 3 * (1 / 2))
        with (2 * radius * 2 / sqrt 3 / 2) by lra. }
    simpl. destruct c as [|row c]; [simpl in Hlen; nia|].
    unfold drop_z. cbn [fmap list_fmap]. f_equal. f_equal; [apply Hcell|].
    rewrite <- list_fmap_compose.
    apply list_fmap_ext. intros k p _. apply Hcell.
  - apply Forall2_same_length_lookup_2.
    + rewrite length_iterations by lia. lia.
    + intros k p row Hp Hrow.
      destruct (lookup_iterations nx ny k p) as (Hi & Hj & Hk); [lia|lia|done|].
      rewrite get_index_valid, Hk by done.
      apply getitem_in_range; [lia|]. by rewrite Nat2Z.id.
Qed.

(** The first corner tells the cells of two points with different [x]
    apart. *)
Lemma cell_at_inj_x radius p q : p.1.1 <> q.1.1 -> cell_at radius p <> cell_at radius q.
Proof.
  intros Hne Heq. apply (f_equal (fun l => l !! 0%nat)) in Heq.
  unfold cell_at, hexagon_corners, range in Heq. simpl in Heq.
  injection Heq as Hx _. apply Hne. lra.
Qed.

(** C5 on a lattice that is not the global one.  With the global [c]
    holding the single point (0, 0) and the argument [coordinates] holding
    the single point (5, 5), [init_corners] returns the cell around (0, 0),
    which is not the cell around the point it was given; with an empty
    argument it still returns one cell. *)
Theorem init_corners_wrong_lattice :
  init_corners [(0, 0, 0)] [(5, 5, 0)] 1 1 1 = Ok [cell_at 1 (0, 0, 0)] /\
  cell_at 1 (0, 0, 0) <> cell_at 1 (5, 5, 0) /\
  init_corners [(0, 0, 0)] [] 1 1 1 = Ok [cell_at 1 (0, 0, 0)].
Proof.
  split; [by apply init_corners_reads_c|].
  split; [|by apply init_corners_reads_c].
  apply cell_at_inj_x. simpl. lra.
Qed.

(** C10.  The result of [init_corners] does not depend on its
    [coordinates] argument, and it does depend on the global lattice [c]
    that the body reads. *)
Theorem init_corners_ignores_coordinates :
  (forall c coordinates1 coordinates2 nx ny radius,
     init_corners c coordinates1 nx ny radius
     = init_corners c coordinates2 nx ny radius) /\
  (exists c1 c2 coordinates nx ny radius,
     init_corners c1 coordinates nx ny radius
     <> init_corners c2 coordinates nx ny radius).
Proof.
  split; [reflexivity|].
  exists [(0, 0, 0)], [(5, 5, 0)], [(0, 0, 0)], 1%Z, 1%Z, 1.
  rewrite !init_corners_reads_c by done.
  intros Heq. apply (cell_at_inj_x 1 (0, 0, 0) (5, 5, 0)); [simpl; lra|].
  simpl in Heq. congruence.
Qed.

End Cells.

(** ** The spin field *)

Section SpinField.
Local Open Scope R_scope.

Lemma py_div_nonzero a b : b <> 0 -> py_div a b = Ok (a / b).
Proof. intros Hb. unfold py_div. by destruct (Req_dec_T b 0). Qed.

Lemma py_div_zero a : py_div a 0 = Raise ZeroDivisionError.
Proof. unfold py_div. by destruct (Req_dec_T 0 0). Qed.

(** The radius 0 is refused by the division [np.pi / r_sk], whatever the
    position. *)
Lemma s_skyrmion_zero_radius r center helicity vorticity chirality :
  s_skyrmion r 0 center helicity vorticity chirality = Raise ZeroDivisionError.
Proof. unfold s_skyrmion. by rewrite py_div_zero. Qed.

(** A negative radius puts every position outside the disk, the center
    included. *)
Lemma s_skyrmion_negative_radius r r_sk center helicity vorticity chirality :
  r_sk < 0 ->
  s_skyrmion r r_sk center helicity vorticity chirality = Ok (0, 0, chirality).
Proof.
  intros Hr. unfold s_skyrmion. rewrite py_div_nonzero, bind_Ok by lra.
  destruct (Rle_dec _ _) as [Hin|Hout]; [|done].
  pose proof (sqrt_pos ((r.1.1 - center.1) ^ 2 + (r.1.2 - center.2) ^ 2)). lra.
Qed.

Lemma sin_cos_unit a b c :
  c = 1 \/ c = -1 ->
  (c * sin a * cos b) ^ 2 + (c * sin a * sin b) ^ 2 + (- c * cos a) ^ 2 = 1.
Proof.
  intros Hc.
  pose proof (sin2_cos2 a) as Ha. pose proof (sin2_cos2 b) as Hb.
  unfold Rsqr in Ha, Hb.
  replace ((c * sin a * cos b) ^ 2 + (c * sin a * sin b) ^ 2 + (- c * cos a) ^ 2)
    with (c * c * (sin a * sin a * (sin b * sin b + cos b * cos b)
                   + cos a * cos a)) by ring.
  rewrite Hb, Rmult_1_r, Ha. destruct Hc as [-> | ->]; ring.
Qed.

(** Before the normalisation already, every vector of the model has
    length 1. *)
Lemma s_skyrmion_unit r r_sk center helicity vorticity chirality :
  r_sk <> 0 -> chirality = 1 \/ chirality = -1 ->
  exists v, s_skyrmion r r_sk center helicity vorticity chirality = Ok v /\
            norm3 v = 1.
Proof.
  intros Hr Hc. unfold s_skyrmion. rewrite py_div_nonzero by done. simpl.
  destruct (Rle_dec _ _) as [Hin|Hout]; eexists; (split; [reflexivity|]);
    unfold norm3; cbn [fst snd].
  - rewrite sin_cos_unit by done. apply sqrt_1.
  - replace (0 ^ 2 + 0 ^ 2 + chirality ^ 2) with 1; [apply sqrt_1|].
    destruct Hc as [-> | ->]; ring.
Qed.

(** Dividing a vector by its length, when that is positive, gives a vector
    of length 1. *)
Lemma divide_row_unit v : 0 < norm3 v -> norm3 (divide_row v (norm3 v)) = 1.
Proof.
  intros Hpos. unfold divide_row. destruct (Rlt_dec 0 (norm3 v)); [|done].
  destruct v as [[a b] c]. unfold norm3 in *. cbn [fst snd] in *.
  remember (a ^ 2 + b ^ 2 + c ^ 2) as q eqn:Eq.
  assert (0 <= q) as Hq by (subst q; nra).
  assert (sqrt q * sqrt q = q) as Hsq by (by apply sqrt_sqrt).
  replace ((a / sqrt q) ^ 2 + (b / sqrt q) ^ 2 + (c / sqrt q) ^ 2)
    with (q / (sqrt q * sqrt q)); [|rewrite Eq at 1; field; lra].
  rewrite Hsq. replace (q / q) with 1; [apply sqrt_1|].
  field. intros Hz. rewrite Hz, sqrt_0 in Hpos. lra.
Qed.

Lemma s_skyrmion_v_unit coordinates r_sk center helicity vorticity chirality :
  r_sk <> 0 -> chirality = 1 \/ chirality = -1 ->
  exists spin,
    s_skyrmion_v coordinates r_sk center helicity vorticity chirality = Ok spin /\
    length spin = length coordinates /\
    Forall (fun v => norm3 v = 1) spin.
Proof.
  intros Hr Hc. unfold s_skyrmion_v.
  induction coordinates as [|r coordinates (spin & Hrun & Hlen & Hunit)].
  - by exists [].
  - destruct (s_skyrmion_unit r r_sk center helicity vorticity chirality Hr Hc)
      as (v & Hv & Hn).
    exists (v :: spin). simpl. rewrite Hv. simpl. rewrite Hrun. simpl.
    split; [done|]. split; [by rewrite Hlen|]. by constructor.
Qed.

Lemma get_spins_rows_unit coordinates r_sk center helicity vorticity chirality :
  r_sk <> 0 -> chirality = 1 \/ chirality = -1 ->
  exists spin,
    get_spins coordinates r_sk center helicity vorticity chirality = Ok spin /\
    length spin = length coordinates /\
    Forall (fun v => norm3 v = 1) spin.
Proof.
  intros Hr Hc. unfold get_spins.
  destruct (s_skyrmion_v_unit coordinates r_sk center helicity vorticity
              chirality Hr Hc) as (spin & -> & Hlen & Hunit).
  simpl. eexists. split; [reflexivity|].
  rewrite zip_with_fmap_r, zip_with_diag.
  split; [by rewrite length_fmap|].
  apply Forall_fmap. eapply Forall_impl; [exact Hunit|].
  intros v Hv. simpl. apply divide_row_unit. rewrite Hv. lra.
Qed.

End SpinField.

Section SpinClaims.
Local Open Scope R_scope.

(** C1.  For every lattice, every skyrmion radius [r_sk > 0], every
    center, helicity and vorticity, and chirality -1 or +1, [get_spins]
    returns one spin per lattice point and every spin it returns has
    Euclidean norm 1. *)
Theorem get_spins_unit coordinates r_sk center helicity vorticity chirality :
  0 < r_sk -> chirality = 1 \/ chirality = -1 ->
  exists spin,
    get_spins coordinates r_sk center helicity vorticity chirality = Ok spin /\
    length spin = length coordinates /\
    forall k s, spin !! k = Some s -> norm3 s = 1.
Proof.
  intros Hr Hc.
  destruct (get_spins_rows_unit coordinates r_sk center helicity vorticity
              chirality) as (spin & Hrun & Hlen & Hunit); [lra|done|].
  exists spin. split; [done|]. split; [done|].
  intros k s Hk. by apply (Forall_lookup_1 _ _ _ _ Hunit Hk).
Qed.

Lemma get_spins_unit_witness :
  exists spin,
    get_spins [(0, 0, 0); (3, 1, 0)] 2 (0, 0) (PI / 2) 1 (-1) = Ok spin /\
    length spin = 2%nat /\
    forall k s, spin !! k = Some s -> norm3 s = 1.
Proof.
  apply (get_spins_unit [(0, 0, 0); (3, 1, 0)] 2 (0, 0) (PI / 2) 1 (-1));
    [lra | right; reflexivity].
Defined.

(** C2.  At every position whose distance [rho] from the center is larger
    than the skyrmion radius, [s_skyrmion] returns exactly the background
    [(0, 0, chirality)], for every helicity and vorticity. *)
Theorem s_skyrmion_outside r r_sk center helicity vorticity chirality :
  r_sk <> 0 ->
  r_sk < sqrt ((r.1.1 - center.1) ^ 2 + (r.1.2 - center.2) ^ 2) ->
  s_skyrmion r r_sk center helicity vorticity chirality = Ok (0, 0, chirality).
Proof.
  intros Hr Hrho. unfold s_skyrmion. rewrite py_div_nonzero, bind_Ok by done.
  destruct (Rle_dec _ _) as [Hin|Hout]; [lra|done].
Qed.

Lemma s_skyrmion_outside_witness :
  s_skyrmion (3, 0, 0) 2 (0, 0) 0 1 1 = Ok (0, 0, 1).
Proof.
  apply (s_skyrmion_outside (3, 0, 0) 2 (0, 0) 0 1 1); [lra|].
  cbn [fst snd]. replace ((3 - 0) ^ 2 + (0 - 0) ^ 2) with (3 ^ 2) by ring.
  rewrite sqrt_pow2 by lra. lra.
Defined.

(** C3.  At the exact center of the skyrmion, [s_skyrmion] returns
    [(0, 0, -chirality)], whatever the helicity and the vorticity. *)
Theorem s_skyrmion_center r r_sk center helicity vorticity chirality :
  0 < r_sk -> r.1.1 = center.1 -> r.1.2 = center.2 ->
  s_skyrmion r r_sk center helicity vorticity chirality = Ok (0, 0, - chirality).
Proof.
  intros Hr Hx Hy. unfold s_skyrmion. rewrite py_div_nonzero, bind_Ok by lra.
  rewrite Hx, Hy.
  replace ((center.1 - center.1) ^ 2 + (center.2 - center.2) ^ 2) with 0 by ring.
  rewrite sqrt_0, Rmult_0_r, sin_0, cos_0.
  destruct (Rle_dec 0 r_sk) as [_|Hout]; [|lra].
  do 2 f_equal; [f_equal|]; ring.
Qed.

Lemma s_skyrmion_center_witness :
  s_skyrmion (4, 5, 0) 2 (4, 5) (PI / 2) (-1) 1 = Ok (0, 0, - 1).
Proof.
  apply (s_skyrmion_center (4, 5, 0) 2 (4, 5) (PI / 2) (-1) 1);
    [lra | reflexivity | reflexivity].
Defined.

(** C9.  For a fixed position, radius, center, helicity and vorticity, the
    vector [s_skyrmion] returns with chirality -1 is the componentwise
    negation of the one it returns with chirality +1. *)
Theorem s_skyrmion_chirality_flip r r_sk center helicity vorticity :
  s_skyrmion r r_sk center helicity vorticity (-1)
  = vneg <$> s_skyrmion r r_sk center helicity vorticity 1.
Proof.
  unfold s_skyrmion, py_div. destruct (Req_dec_T r_sk 0); [done|]. simpl.
  destruct (Rle_dec _ _); simpl; unfold vneg; cbn [fst snd];
    do 2 f_equal; try f_equal; ring.
Qed.

End SpinClaims.

(** ** The hexagon *)

Section Hexagon.
Local Open Scope R_scope.

Lemma cos_5PI6 : cos (5 * PI / 6) = - (sqrt 3 / 2).
Proof.
  replace (5 * PI / 6) with (- (PI / 6) + PI) by lra.
  by rewrite neg_cos, cos_neg, cos_PI6.
Qed.

Lemma sin_5PI6 : sin (5 * PI / 6) = 1 / 2.
Proof.
  replace (5 * PI / 6) with (- (PI / 6) + PI) by lra.
  rewrite neg_sin, sin_neg, sin_PI6. lra.
Qed.

Lemma cos_7PI6 : cos (7 * PI / 6) = - (sqrt 3 / 2).
Proof.
  replace (7 * PI / 6) with (PI / 6 + PI) by lra.
  by rewrite neg_cos, cos_PI6.
Qed.

Lemma sin_7PI6 : sin (7 * PI / 6) = - (1 / 2).
Proof.
  replace (7 * PI / 6) with (PI / 6 + PI) by lra.
  by rewrite neg_sin, sin_PI6.
Qed.

Lemma cos_11PI6 : cos (11 * PI / 6) = sqrt 3 / 2.
Proof.
  replace (11 * PI / 6) with (5 * PI / 6 + PI) by lra.
  rewrite neg_cos, cos_5PI6. lra.
Qed.

Lemma sin_11PI6 : sin (11 * PI / 6) = - (1 / 2).
Proof.
  replace (11 * PI / 6) with (5 * PI / 6 + PI) by lra.
  by rewrite neg_sin, sin_5PI6.
Qed.

(** The six corners in closed form, counter-clockwise from 30 degrees. *)
Lemma hexagon_corners_closed x y r :
  hexagon_corners x y r =
  [ (x + r * (sqrt 3 / 2), y + r * (1 / 2), 0);
    (x + r * 0, y + r * 1, 0);
    (x + r * - (sqrt 3 / 2), y + r * (1 / 2), 0);
    (x + r * - (sqrt 3 / 2), y + r * - (1 / 2), 0);
    (x + r * 0, y + r * -1, 0);
    (x + r * (sqrt 3 / 2), y + r * - (1 / 2), 0) ].
Proof.
  unfold hexagon_corners, range.
  change (seqZ 0 6) with [0; 1; 2; 3; 4; 5]%Z.
  cbn [fmap list_fmap].
  change (60 * 0 + 30)%Z with 30%Z. change (60 * 1 + 30)%Z with 90%Z.
  change (60 * 2 + 30)%Z with 150%Z. change (60 * 3 + 30)%Z with 210%Z.
  change (60 * 4 + 30)%Z with 270%Z. change (60 * 5 + 30)%Z with 330%Z.
  replace (30 * PI / 180) with (PI / 6) by lra.
  replace (90 * PI / 180) with (PI / 2) by lra.
  replace (150 * PI / 180) with (5 * PI / 6) by lra.
  replace (210 * PI / 180) with (7 * PI / 6) by lra.
  replace (270 * PI / 180) with (3 * (PI / 2)) by lra.
  replace (330 * PI / 180) with (11 * PI / 6) by lra.
  by rewrite cos_PI6, sin_PI6, cos_PI2, sin_PI2, cos_5PI6, sin_5PI6,
    cos_7PI6, sin_7PI6, cos_3PI2, sin_3PI2, cos_11PI6, sin_11PI6.
Qed.

Lemma sqrt_3_sq : sqrt 3 * sqrt 3 = 3.
Proof. apply sqrt_sqrt. lra. Qed.

Lemma sqrt_3_pos : 0 < sqrt 3.
Proof. apply sqrt_lt_R0. lra. Qed.

Lemma sqrt_of_square e r : e = r ^ 2 -> sqrt e = Rabs r.
Proof. intros ->. rewrite <- Rsqr_pow2. apply sqrt_Rsqr_abs. Qed.

(** Closes [e = r ^ 2] for the polynomials in [sqrt 3] that the corners of
    a hexagon give. *)
Ltac hexagon_square :=
  match goal with
  | |- ?e = ?r ^ 2 =>
      first
        [ ring
        | field
        | replace e with (r ^ 2 + r ^ 2 / 4 * (sqrt 3 * sqrt 3 - 3)) by field;
          rewrite sqrt_3_sq; field ]
  end.

Lemma hexagon_corner_dist x y radius p :
  p ∈ hexagon_corners x y radius ->
  p.2 = 0 /\ dist_xy p (x, y, 0) = Rabs radius.
Proof.
  rewrite hexagon_corners_closed.
  intros Hp. unfold dist_xy, dist2.
  repeat (apply elem_of_cons in Hp as [-> | Hp]);
    [..|by apply elem_of_nil in Hp];
    (split; [done|]); cbn [fst snd]; apply sqrt_of_square; hexagon_square.
Qed.

(** X1.  [hexagon_corners] returns six corners, all in the plane [z = 0]
    and all at distance [|radius|] from the center [(x, y)]. *)
Theorem hexagon_corners_on_circle x y radius :
  length (hexagon_corners x y radius) = 6%nat /\
  forall p, p ∈ hexagon_corners x y radius ->
    p.2 = 0 /\ dist_xy p (x, y, 0) = Rabs radius.
Proof.
  split; [by rewrite hexagon_corners_closed|]. apply hexagon_corner_dist.
Qed.

(** X2.  The hexagon of [hexagon_corners] is regular: every corner is at
    distance [|radius|] from the next one, the last from the first. *)
Theorem hexagon_corners_regular x y radius k p q :
  hexagon_corners x y radius !! k = Some p ->
  hexagon_corners x y radius !! ((k + 1) mod 6)%nat = Some q ->
  dist_xy p q = Rabs radius.
Proof.
  rewrite hexagon_corners_closed. intros Hp Hq. unfold dist_xy, dist2.
  destruct k as [|[|[|[|[|[|k]]]]]]; [..|done];
    match type of Hq with
    | _ !! ?n = _ => let n' := eval vm_compute in n in change n with n' in Hq
    end;
    injection Hp as <-; injection Hq as <-; cbn [fst snd];
    apply sqrt_of_square; hexagon_square.
Qed.

Lemma hexagon_corners_regular_witness :
  dist_xy (1 + 3 * (sqrt 3 / 2), 2 + 3 * - (1 / 2), 0)
          (1 + 3 * (sqrt 3 / 2), 2 + 3 * (1 / 2), 0) = Rabs 3.
Proof.
  apply (hexagon_corners_regular 1 2 3 5);
    rewrite hexagon_corners_closed; reflexivity.
Defined.

End Hexagon.

(** ** Geometry of the lattice *)

Section LatticeGeometry.
Local Open Scope R_scope.

(** Every row of the array is the lattice point of some row and column of
    the grid. *)
Lemma init_coordinates_lookup nx ny radius coords k p :
  (1 <= nx)%Z -> init_coordinates nx ny radius = Ok coords ->
  coords !! k = Some p ->
  (0 <= Z.of_nat k < nx * ny)%Z /\
  p = lattice_row radius (Z.of_nat k mod nx) (Z.of_nat k / nx).
Proof.
  intros Hnx Hrun Hk.
  pose proof (init_coordinates_ok nx ny radius) as Hok.
  pose proof (init_coordinates_raises nx ny radius) as Hraise.
  destruct (Z.lt_ge_cases (nx * ny) 0) as [Hneg|Hpos];
    [rewrite Hraise in Hrun by done; discriminate|].
  destruct (Hok Hpos) as (coords' & Hrun' & Hlen & Hrow).
  rewrite Hrun in Hrun'. injection Hrun' as <-.
  apply lookup_lt_Some in Hk as Hlt.
  assert (0 <= Z.of_nat k < nx * ny)%Z as Hrange by lia.
  split; [done|].
  destruct (linear_index_surj nx ny (Z.of_nat k) Hnx Hrange)
    as (i & j & Hi & Hj & Heq).
  assert (Z.of_nat k / nx = j)%Z as ->.
  { rewrite <- Heq, Z.div_add by lia. rewrite Z.div_small by lia. lia. }
  assert (Z.of_nat k mod nx = i)%Z as ->.
  { rewrite <- Heq, Z.mod_add by lia. apply Z.mod_small. lia. }
  specialize (Hrow i j Hi Hj). rewrite Heq, Nat2Z.id in Hrow. congruence.
Qed.

Lemma lattice_row_inj radius i j i' j' :
  radius <> 0 -> lattice_row radius i j = lattice_row radius i' j' ->
  i = i' /\ j = j'.
Proof.
  intros Hr Heq. pose proof sqrt_3_pos as Hs.
  rewrite !lattice_row_spec in Heq. unfold spec_point, spec_offset in Heq.
  injection Heq as Hx Hy.
  assert (IZR j = IZR j') as Hj.
  { apply (Rmult_eq_reg_r (sqrt 3 * radius)); [lra|].
    apply Rmult_integral_contrapositive_currified; lra. }
  apply eq_IZR in Hj. subst j'. split; [|done].
  apply eq_IZR. apply (Rmult_eq_reg_r (2 * radius)); lra.
Qed.

(** X3.  Row [k] of the lattice array is the point of column [k mod nx]
    and row [k // nx] of the grid. *)
Theorem init_coordinates_decode nx ny radius coords k :
  (1 <= nx)%Z -> (0 <= k < nx * ny)%Z ->
  init_coordinates nx ny radius = Ok coords ->
  getitem coords k = Ok (spec_point radius (k mod nx) (k / nx)) /\
  get_index nx ny (k mod nx) (k / nx) = k.
Proof.
  intros Hnx Hk Hrun.
  destruct (linear_index_surj nx ny k Hnx Hk) as (i & j & Hi & Hj & Heq).
  assert (k / nx = j)%Z as ->.
  { rewrite <- Heq, Z.div_add by lia. rewrite Z.div_small by lia. lia. }
  assert (k mod nx = i)%Z as ->.
  { rewrite <- Heq, Z.mod_add by lia. apply Z.mod_small. lia. }
  rewrite <- lattice_row_spec, <- Heq, <- (get_index_valid nx ny i j) by done.
  split; [|done]. by apply (init_coordinates_getitem nx ny radius).
Qed.

Lemma init_coordinates_decode_witness :
  getitem [lattice_row 1 0 0; lattice_row 1 1 0; lattice_row 1 0 1;
           lattice_row 1 1 1] 3
    = Ok (spec_point 1 (3 mod 2) (3 / 2)) /\
  get_index 2 2 (3 mod 2) (3 / 2) = 3%Z.
Proof.
  apply (init_coordinates_decode 2 2 1); [lia | lia | reflexivity].
Defined.

(** X4.  For a radius other than 0 the points of the lattice are pairwise
    distinct. *)
Theorem init_coordinates_distinct nx ny radius coords :
  (1 <= nx)%Z -> (1 <= ny)%Z -> radius <> 0 ->
  init_coordinates nx ny radius = Ok coords ->
  NoDup coords.
Proof.
  intros Hnx Hny Hr Hrun. apply NoDup_alt. intros k k' p Hk Hk'.
  destruct (init_coordinates_lookup nx ny radius coords k p Hnx Hrun Hk)
    as [Hrange Hp].
  destruct (init_coordinates_lookup nx ny radius coords k' p Hnx Hrun Hk')
    as [Hrange' Hp'].
  rewrite Hp in Hp'.
  destruct (lattice_row_inj _ _ _ _ _ Hr Hp') as [Hmod Hdiv].
  pose proof (Z.div_mod (Z.of_nat k) nx ltac:(lia)).
  pose proof (Z.div_mod (Z.of_nat k') nx ltac:(lia)).
  apply Nat2Z.inj. congruence.
Qed.

Lemma init_coordinates_distinct_witness :
  NoDup [lattice_row 1 0 0; lattice_row 1 1 0; lattice_row 1 0 1;
         lattice_row 1 1 1].
Proof.
  apply (init_coordinates_distinct 2 2 1); [lia | lia | lra | reflexivity].
Defined.

Lemma lattice_row_right radius i j :
  dist_xy (lattice_row radius i j) (lattice_row radius (i + 1) j)
  = Rabs (2 * radius).
Proof.
  unfold dist_xy, dist2, lattice_row. cbn [fst snd]. rewrite plus_IZR.
  apply sqrt_of_square. ring.
Qed.

Lemma lattice_row_up radius i j :
  dist_xy (lattice_row radius i j) (lattice_row radius i (j + 1))
  = Rabs (2 * radius).
Proof.
  pose proof sqrt_3_pos as Hs.
  rewrite !lattice_row_spec. unfold dist_xy, dist2, spec_point, spec_offset.
  cbn [fst snd]. rewrite plus_IZR, Z.add_1_r, Z.even_succ, <- Z.negb_even.
  apply sqrt_of_square.
  destruct (Z.even j); cbn [negb];
    match goal with
    | |- ?e = _ =>
        replace e with ((2 * radius) ^ 2 + radius ^ 2 * (sqrt 3 * sqrt 3 - 3))
          by (field; lra)
    end; rewrite sqrt_3_sq; ring.
Qed.

(** X5.  Two lattice points next to each other in a row are [|2*radius|]
    apart. *)
Theorem lattice_row_neighbours nx ny radius coords i j :
  init_coordinates nx ny radius = Ok coords ->
  (0 <= i)%Z -> (i + 1 < nx)%Z -> (0 <= j < ny)%Z ->
  exists p q,
    getitem coords (get_index nx ny i j) = Ok p /\
    getitem coords (get_index nx ny (i + 1) j) = Ok q /\
    dist_xy p q = Rabs (2 * radius).
Proof.
  intros Hrun Hi Hi' Hj.
  exists (lattice_row radius i j), (lattice_row radius (i + 1) j).
  split; [apply (init_coordinates_getitem nx ny radius); [done|lia|lia]|].
  split; [apply (init_coordinates_getitem nx ny radius); [done|lia|lia]|].
  apply lattice_row_right.
Qed.

Lemma lattice_row_neighbours_witness :
  exists p q,
    getitem [lattice_row 1 0 0; lattice_row 1 1 0] (get_index 2 1 0 0) = Ok p /\
    getitem [lattice_row 1 0 0; lattice_row 1 1 0] (get_index 2 1 (0 + 1) 0)
      = Ok q /\
    dist_xy p q = Rabs (2 * 1).
Proof.
  apply (lattice_row_neighbours 2 1 1 _ 0 0); [reflexivity | lia | lia | lia].
Defined.

(** X6.  The same column of two consecutive rows holds two points that are
    [|2*radius|] apart, so that the lattice is triangular: the rows are
    [sqrt(3)*radius] apart and shifted by [radius]. *)
Theorem lattice_column_neighbours nx ny radius coords i j :
  init_coordinates nx ny radius = Ok coords ->
  (0 <= i < nx)%Z -> (0 <= j)%Z -> (j + 1 < ny)%Z ->
  exists p q,
    getitem coords (get_index nx ny i j) = Ok p /\
    getitem coords (get_index nx ny i (j + 1)) = Ok q /\
    dist_xy p q = Rabs (2 * radius).
Proof.
  intros Hrun Hi Hj Hj'.
  exists (lattice_row radius i j), (lattice_row radius i (j + 1)).
  split; [apply (init_coordinates_getitem nx ny radius); [done|lia|lia]|].
  split; [apply (init_coordinates_getitem nx ny radius); [done|lia|lia]|].
  apply lattice_row_up.
Qed.

Lemma lattice_column_neighbours_witness :
  exists p q,
    getitem [lattice_row 1 0 0; lattice_row 1 0 1] (get_index 1 2 0 0) = Ok p /\
    getitem [lattice_row 1 0 0; lattice_row 1 0 1] (get_index 1 2 0 (0 + 1))
      = Ok q /\
    dist_xy p q = Rabs (2 * 1).
Proof.
  apply (lattice_column_neighbours 1 2 1 _ 0 0); [reflexivity | lia | lia | lia].
Defined.

(** X7.  The sentinel is itself an index numpy accepts: used on the
    lattice array, the [-1] that [get_index] returns for a pair outside the
    grid reads the last point of the lattice and raises nothing. *)
Theorem sentinel_reads_last_point nx ny radius coords i j :
  (1 <= nx)%Z -> (1 <= ny)%Z ->
  init_coordinates nx ny radius = Ok coords ->
  ~ ((0 <= i < nx)%Z /\ (0 <= j < ny)%Z) ->
  getitem coords (get_index nx ny i j)
  = Ok (spec_point radius (nx - 1) (ny - 1)).
Proof.
  intros Hnx Hny Hrun Hout. rewrite get_index_invalid by done.
  destruct (init_coordinates_ok nx ny radius) as (coords' & Hrun' & Hlen & Hrow);
    [nia|].
  rewrite Hrun in Hrun'. injection Hrun' as <-.
  specialize (Hrow (nx - 1) (ny - 1) ltac:(lia) ltac:(lia))%Z.
  rewrite lattice_row_spec in Hrow.
  assert (1 <= nx * ny)%Z as Hn by nia.
  unfold getitem, np_index. rewrite Hlen, Z2Nat.id by lia.
  destruct (0 <=? -1)%Z eqn:E1; [lia|]. cbn [andb].
  destruct (- (nx * ny) <=? -1)%Z eqn:E2; [|lia].
  cbn [andb Z.ltb Z.compare]. rewrite bind_Ok.
  replace (-1 + nx * ny)%Z with (nx - 1 + (ny - 1) * nx)%Z by lia.
  by rewrite Hrow.
Qed.

Lemma sentinel_reads_last_point_witness :
  getitem [lattice_row 1 0 0; lattice_row 1 1 0] (get_index 2 1 2 0)
  = Ok (spec_point 1 (2 - 1) (1 - 1)).
Proof.
  apply (sentinel_reads_last_point 2 1 1); [lia | lia | reflexivity | lia].
Defined.

End LatticeGeometry.

(** ** The cells of the lattice *)

Section CellGeometry.
Local Open Scope R_scope.

Lemma inv_sqrt_3 : / sqrt 3 = sqrt 3 / 3.
Proof.
  pose proof sqrt_3_pos as Hs.
  apply (Rmult_eq_reg_l (sqrt 3)); [|lra]. rewrite Rinv_r by lra.
  replace (sqrt 3 * (sqrt 3 / 3)) with (sqrt 3 * sqrt 3 / 3) by field.
  rewrite sqrt_3_sq. lra.
Qed.

(** The corners of a cell: its vertical sides are at [x - radius] and
    [x + radius], [radius] is the inradius of the hexagon. *)
Lemma cell_at_closed radius p :
  cell_at radius p =
  [ (p.1.1 + radius, p.1.2 + radius * sqrt 3 / 3);
    (p.1.1, p.1.2 + 2 * radius * sqrt 3 / 3);
    (p.1.1 - radius, p.1.2 + radius * sqrt 3 / 3);
    (p.1.1 - radius, p.1.2 - radius * sqrt 3 / 3);
    (p.1.1, p.1.2 - 2 * radius * sqrt 3 / 3);
    (p.1.1 + radius, p.1.2 - radius * sqrt 3 / 3) ].
Proof.
  assert (2 * radius * 2 / sqrt 3 / 2 = 2 * radius * sqrt 3 / 3) as Hr.
  { unfold Rdiv at 2. rewrite inv_sqrt_3. field. }
  unfold cell_at. cbv zeta. rewrite Hr, hexagon_corners_closed.
  cbn [fmap list_fmap fst snd].
  repeat f_equal;
    match goal with
    | |- ?a = ?b =>
        first
          [ field
          | replace a with (b + radius / 3 * (sqrt 3 * sqrt 3 - 3)) by field;
            rewrite sqrt_3_sq; field
          | replace a with (b - radius / 3 * (sqrt 3 * sqrt 3 - 3)) by field;
            rewrite sqrt_3_sq; field ]
    end.
Qed.

Lemma getitem_raises {A : Type} (a : list A) idx e :
  getitem a idx = Raise e -> e = IndexError.
Proof.
  unfold getitem, np_index.
  destruct (_ && _); [|destruct (_ && _)]; simpl;
    try destruct (a !! _); congruence.
Qed.

Lemma getitem_past_end {A : Type} (a : list A) :
  getitem a (Z.of_nat (length a)) = Raise IndexError.
Proof.
  unfold getitem, np_index.
  assert ((Z.of_nat (length a) <? 0)%Z = false) as -> by (apply Z.ltb_ge; lia).
  by rewrite Z.ltb_irrefl, !andb_false_r.
Qed.

Lemma map_res_raises {X Y : Type} (f : X -> res Y) xs e x :
  (forall y e', f y = Raise e' -> e' = e) ->
  x ∈ xs -> f x = Raise e -> map_res f xs = Raise e.
Proof.
  intros Hall Hin Hx. induction xs as [|y xs IH]; [by apply elem_of_nil in Hin|].
  simpl. destruct (f y) as [v|e'] eqn:Hy; simpl.
  - apply elem_of_cons in Hin as [-> | Hin]; [congruence|].
    by rewrite IH.
  - by rewrite (Hall y e' Hy).
Qed.

Lemma iterations_empty nx ny : (nx <= 0)%Z \/ (ny <= 0)%Z -> iterations nx ny = [].
Proof.
  intros Hn. destruct (iterations nx ny) as [|[i j] l] eqn:E; [done|].
  assert ((i, j) ∈ iterations nx ny) as Hin by (rewrite E; left).
  apply elem_of_iterations in Hin. lia.
Qed.

(** Rows of [c] beyond the grid are not read. *)
Lemma init_corners_take c coordinates nx ny radius :
  (1 <= nx)%Z -> (1 <= ny)%Z -> (nx * ny <= Z.of_nat (length c))%Z ->
  init_corners c coordinates nx ny radius
  = Ok (cell_at radius <$> take (Z.to_nat (nx * ny)) c).
Proof.
  intros Hnx Hny Hlen.
  rewrite <- (init_corners_reads_c (take (Z.to_nat (nx * ny)) c) coordinates
                nx ny radius Hnx Hny) by (rewrite length_take; nia).
  rewrite !init_corners_loop. f_equal.
  assert (forall p, p ∈ iterations nx ny ->
            getitem c (get_index nx ny p.1 p.2)
            = getitem (take (Z.to_nat (nx * ny)) c) (get_index nx ny p.1 p.2))
    as Hsame.
  { intros [i j] Hin. apply elem_of_iterations in Hin as [Hi Hj].
    cbn [fst snd]. rewrite get_index_valid by done.
    pose proof (linear_index_range nx ny i j Hi Hj) as Hr.
    unfold getitem. rewrite !np_index_in_range by (rewrite ?length_take; lia).
    rewrite !bind_Ok, lookup_take_lt by lia. done. }
  revert Hsame. generalize (iterations nx ny) as l.
  induction l as [|p l IH]; intros Hsame; [done|].
  simpl. rewrite (Hsame p) by left. rewrite IH; [done|].
  intros q Hq. apply Hsame. by right.
Qed.

Lemma getitem_lattice_cell nx ny radius c cells i j :
  init_coordinates nx ny radius = Ok c ->
  init_corners c c nx ny radius = Ok cells ->
  (0 <= i < nx)%Z -> (0 <= j < ny)%Z ->
  getitem cells (get_index nx ny i j)
  = Ok (cell_at radius (lattice_row radius i j)).
Proof.
  intros Hc Hcells Hi Hj.
  destruct (init_coordinates_ok nx ny radius) as (c' & Hc' & Hlen & Hrow); [nia|].
  rewrite Hc in Hc'. injection Hc' as <-.
  rewrite init_corners_reads_c in Hcells by (rewrite ?Hlen; nia).
  injection Hcells as <-.
  rewrite get_index_valid by done.
  apply getitem_in_range; [nia|].
  by rewrite list_lookup_fmap, (Hrow i j Hi Hj).
Qed.

(** X8.  What [init_corners] returns, in every case.  It succeeds exactly
    when the grid has at least one row and one column and the global
    lattice [c] has at least [nx*ny] rows; it then returns the hexagons
    around the first [nx*ny] rows of [c], in order.  In every other case
    it raises [IndexError]. *)
Theorem init_corners_result c coordinates nx ny radius :
  match init_corners c coordinates nx ny radius with
  | Ok cells =>
      ((1 <= nx)%Z /\ (1 <= ny)%Z /\ (nx * ny <= Z.of_nat (length c))%Z) /\
      cells = cell_at radius <$> take (Z.to_nat (nx * ny)) c
  | Raise e =>
      ((nx < 1)%Z \/ (ny < 1)%Z \/ (Z.of_nat (length c) < nx * ny)%Z) /\
      e = IndexError
  end.
Proof.
  destruct (Z.lt_ge_cases nx 1) as [Hnx|Hnx].
  { rewrite init_corners_loop, iterations_empty by lia. simpl. auto. }
  destruct (Z.lt_ge_cases ny 1) as [Hny|Hny].
  { rewrite init_corners_loop, iterations_empty by lia. simpl. auto. }
  destruct (Z.lt_ge_cases (Z.of_nat (length c)) (nx * ny)) as [Hshort|Hlong].
  - rewrite init_corners_loop.
    destruct (linear_index_surj nx ny (Z.of_nat (length c)) Hnx)
      as (i & j & Hi & Hj & Heq); [lia|].
    rewrite (map_res_raises _ _ IndexError (i, j)).
    + simpl. auto.
    + intros p e. apply getitem_raises.
    + by apply elem_of_iterations.
    + cbn [fst snd]. rewrite get_index_valid, Heq by done.
      apply getitem_past_end.
  - rewrite init_corners_take by done. auto.
Qed.

(** X9.  The cells of the lattice.  Called on the lattice that
    [init_coordinates] built for the same grid, [init_corners] returns one
    cell per lattice point, in the same order; every cell has six corners,
    all at the circumradius [|h/2|], [h = 2*radius*2/sqrt(3)], from its
    lattice point. *)
Theorem cells_of_lattice nx ny radius c :
  (1 <= nx)%Z -> (1 <= ny)%Z ->
  init_coordinates nx ny radius = Ok c ->
  exists cells,
    init_corners c c nx ny radius = Ok cells /\
    length cells = length c /\
    forall k (p : vec3) cell, c !! k = Some p -> cells !! k = Some cell ->
      length cell = 6%nat /\
      forall q, q ∈ cell -> dist2 q p.1 = Rabs (2 * radius * 2 / sqrt 3 / 2).
Proof.
  intros Hnx Hny Hc.
  destruct (init_coordinates_ok nx ny radius) as (c' & Hc' & Hlen & _); [nia|].
  rewrite Hc in Hc'. injection Hc' as <-.
  exists (cell_at radius <$> c).
  split; [apply init_corners_reads_c; [done|done|rewrite Hlen; nia]|].
  split; [by rewrite length_fmap|].
  intros k p cell Hp Hcell.
  apply list_lookup_fmap_Some in Hcell as (p' & -> & Hp').
  assert (p' = p) as -> by congruence.
  unfold cell_at.
  split; [by rewrite length_fmap, hexagon_corners_closed|].
  intros q Hq. apply list_elem_of_fmap in Hq as (q3 & -> & Hq3).
  apply hexagon_corner_dist in Hq3 as [_ Hd]. exact Hd.
Qed.

Lemma cells_of_lattice_witness :
  exists cells,
    init_corners [lattice_row 1 0 0; lattice_row 1 1 0]
                 [lattice_row 1 0 0; lattice_row 1 1 0] 2 1 1 = Ok cells /\
    length cells = 2%nat /\
    forall k (p : vec3) cell,
      [lattice_row 1 0 0; lattice_row 1 1 0] !! k = Some p ->
      cells !! k = Some cell ->
      length cell = 6%nat /\
      forall q, q ∈ cell -> dist2 q p.1 = Rabs (2 * 1 * 2 / sqrt 3 / 2).
Proof. apply (cells_of_lattice 2 1 1); [lia | lia | reflexivity]. Defined.

(** X10.  The cells tile along a row: the cells of two lattice points
    next to each other in a row have an edge in common, corners 0 and 5 of
    the left cell being corners 2 and 3 of the right one. *)
Theorem cells_share_edge_in_row nx ny radius c cells i j :
  init_coordinates nx ny radius = Ok c ->
  init_corners c c nx ny radius = Ok cells ->
  (0 <= i)%Z -> (i + 1 < nx)%Z -> (0 <= j < ny)%Z ->
  exists left right u v,
    getitem cells (get_index nx ny i j) = Ok left /\
    getitem cells (get_index nx ny (i + 1) j) = Ok right /\
    left !! 0%nat = Some u /\ right !! 2%nat = Some u /\
    left !! 5%nat = Some v /\ right !! 3%nat = Some v /\
    (radius <> 0 -> u <> v).
Proof.
  intros Hc Hcells Hi Hi' Hj. pose proof sqrt_3_pos as Hs.
  eexists _, _, _, _.
  split; [apply (getitem_lattice_cell nx ny radius c); [done|done|lia|lia]|].
  split; [apply (getitem_lattice_cell nx ny radius c); [done|done|lia|lia]|].
  rewrite !cell_at_closed. cbn [lookup list_lookup].
  split; [reflexivity|].
  split; [unfold lattice_row; cbn [fst snd]; rewrite plus_IZR;
          do 2 f_equal; field; lra|].
  split; [reflexivity|].
  split; [unfold lattice_row; cbn [fst snd]; rewrite plus_IZR;
          do 2 f_equal; field; lra|].
  intros Hr Heq. injection Heq as Heq. apply Hr.
  apply (Rmult_eq_reg_r (sqrt 3)); lra.
Qed.

Lemma cells_share_edge_in_row_witness :
  exists left right u v,
    getitem [cell_at 1 (lattice_row 1 0 0); cell_at 1 (lattice_row 1 1 0)]
      (get_index 2 1 0 0) = Ok left /\
    getitem [cell_at 1 (lattice_row 1 0 0); cell_at 1 (lattice_row 1 1 0)]
      (get_index 2 1 (0 + 1) 0) = Ok right /\
    left !! 0%nat = Some u /\ right !! 2%nat = Some u /\
    left !! 5%nat = Some v /\ right !! 3%nat = Some v /\
    (1 <> 0 -> u <> v).
Proof.
  apply (cells_share_edge_in_row 2 1 1
           [lattice_row 1 0 0; lattice_row 1 1 0]);
    [reflexivity | by apply init_corners_reads_c | lia | lia | lia].
Defined.

(** X11.  The cells tile across rows: the cells of the same column in two
    consecutive rows have an edge in common.  Above an even row the upper
    cell lies to the left (corners 2 and 1 of the lower cell are corners 4
    and 5 of the upper one), above an odd row to the right (corners 1 and
    0 of the lower cell are corners 3 and 4 of the upper one). *)
Theorem cells_share_edge_in_column nx ny radius c cells i j :
  init_coordinates nx ny radius = Ok c ->
  init_corners c c nx ny radius = Ok cells ->
  (0 <= i < nx)%Z -> (0 <= j)%Z -> (j + 1 < ny)%Z ->
  exists lower upper u v,
    getitem cells (get_index nx ny i j) = Ok lower /\
    getitem cells (get_index nx ny i (j + 1)) = Ok upper /\
    if Z.even j
    then lower !! 2%nat = Some u /\ upper !! 4%nat = Some u /\
         lower !! 1%nat = Some v /\ upper !! 5%nat = Some v
    else lower !! 1%nat = Some u /\ upper !! 3%nat = Some u /\
         lower !! 0%nat = Some v /\ upper !! 4%nat = Some v.
Proof.
  intros Hc Hcells Hi Hj Hj'. pose proof sqrt_3_pos as Hs.
  pose proof (getitem_lattice_cell nx ny radius c cells i j Hc Hcells)
    as Hlower.
  pose proof (getitem_lattice_cell nx ny radius c cells i (j + 1) Hc Hcells)
    as Hupper.
  rewrite Hlower, Hupper by lia.
  rewrite !cell_at_closed, !lattice_row_spec.
  unfold spec_point, spec_offset. cbn [fst snd].
  rewrite plus_IZR, Z.add_1_r, Z.even_succ, <- Z.negb_even.
  destruct (Z.even j); cbn [negb]; eexists _, _, _, _;
    (split; [reflexivity|]); (split; [reflexivity|]);
    cbn [lookup list_lookup];
    (split; [reflexivity|]);
    (split; [do 2 f_equal; field; lra|]);
    (split; [reflexivity|]); do 2 f_equal; field; lra.
Qed.

Lemma cells_share_edge_in_column_witness :
  exists lower upper u v,
    getitem [cell_at 1 (lattice_row 1 0 0); cell_at 1 (lattice_row 1 0 1)]
      (get_index 1 2 0 0) = Ok lower /\
    getitem [cell_at 1 (lattice_row 1 0 0); cell_at 1 (lattice_row 1 0 1)]
      (get_index 1 2 0 (0 + 1)) = Ok upper /\
    if Z.even 0
    then lower !! 2%nat = Some u /\ upper !! 4%nat = Some u /\
         lower !! 1%nat = Some v /\ upper !! 5%nat = Some v
    else lower !! 1%nat = Some u /\ upper !! 3%nat = Some u /\
         lower !! 0%nat = Some v /\ upper !! 4%nat = Some v.
Proof.
  apply (cells_share_edge_in_column 1 2 1
           [lattice_row 1 0 0; lattice_row 1 0 1]);
    [reflexivity | by apply init_corners_reads_c | lia | lia | lia].
Defined.

End CellGeometry.

(** ** The texture of the spin field *)

Section SpinTexture.
Local Open Scope R_scope.

Lemma vec3_eq (a b c a' b' c' : R) :
  a = a' -> b = b' -> c = c' -> (a, b, c) = (a', b', c').
Proof. by intros -> -> ->. Qed.

(** [get_spins], row by row. *)
Lemma get_spins_rowwise coordinates r_sk center helicity vorticity chirality :
  get_spins coordinates r_sk center helicity vorticity chirality
  = map_res (fun r => normalise <$>
                        s_skyrmion r r_sk center helicity vorticity chirality)
            coordinates.
Proof.
  unfold get_spins, s_skyrmion_v.
  induction coordinates as [|r coordinates IH]; [done|].
  cbn [map_res].
  destruct (s_skyrmion r r_sk center helicity vorticity chirality) as [v|e];
    [|done].
  rewrite bind_Ok. cbn [fmap res_fmap]. rewrite bind_Ok, <- IH.
  destruct (map_res _ coordinates) as [spin|e]; [|done].
  by rewrite !bind_Ok.
Qed.



Lemma map_res_length {X Y : Type} (f : X -> res Y) xs ys :
  map_res f xs = Ok ys -> length ys = length xs.
Proof.
  revert ys. induction xs as [|x0 xs IH]; intros ys Hrun.
  - by injection Hrun as <-.
  - simpl in Hrun. destruct (f x0) as [y0|e]; [|done].
    rewrite bind_Ok in Hrun.
    destruct (map_res f xs) as [ys'|e]; [|done].
    rewrite bind_Ok in Hrun. injection Hrun as <-. simpl. by rewrite (IH ys').
Qed.


Lemma s_skyrmion_scale r r_sk center helicity vorticity chirality :
  s_skyrmion r r_sk center helicity vorticity chirality
  = scale3 chirality <$> s_skyrmion r r_sk center helicity vorticity 1.
Proof.
  unfold s_skyrmion, py_div. destruct (Req_dec_T r_sk 0); [done|].
  rewrite !bind_Ok. destruct (Rle_dec _ _); cbn [fmap res_fmap];
    unfold scale3; cbn [fst snd]; apply (f_equal Ok), vec3_eq; ring.
Qed.



(** The angle [np.arctan2] returns is the polar angle of the point. *)
Lemma arctan2_polar x y :
  0 < sqrt (x ^ 2 + y ^ 2) ->
  cos (arctan2 y x) = x / sqrt (x ^ 2 + y ^ 2) /\
  sin (arctan2 y x) = y / sqrt (x ^ 2 + y ^ 2).
Proof.
  intros Hrho. set (rho := sqrt (x ^ 2 + y ^ 2)) in *.
  assert (rho * rho = x ^ 2 + y ^ 2) as Hsq by (apply sqrt_sqrt; nra).
  assert (x <> 0 -> sqrt (1 + (y / x)²) = Rabs (rho / x)) as Hroot.
  { intros Ht. apply sqrt_of_square. unfold Rsqr.
    replace ((rho / x) ^ 2) with (rho * rho / (x * x)) by (field; lra).
    rewrite Hsq. field. lra. }
  unfold arctan2.
  destruct (Rlt_dec 0 x) as [Hx|Hx]; [|destruct (Rlt_dec x 0) as [Hx'|Hx']].
  - rewrite cos_atan, sin_atan, Hroot by lra.
    rewrite Rabs_pos_eq by (apply Rlt_le, Rdiv_lt_0_compat; lra).
    split; field; lra.
  - assert (Rabs (rho / x) = - (rho / x)) as Habs.
    { apply Rabs_left. unfold Rdiv. apply Rmult_pos_neg; [lra|].
      by apply Rinv_lt_0_compat. }
    destruct (Rle_dec 0 y) as [Hy|Hy].
    + rewrite neg_cos, neg_sin, cos_atan, sin_atan, Hroot, Habs by lra.
      split; field; lra.
    + rewrite cos_minus, sin_minus, cos_PI, sin_PI, cos_atan, sin_atan,
        Hroot, Habs by lra.
      split; field; lra.
  - assert (x = 0) as -> by lra.
    assert (rho = Rabs y) as Hy.
    { unfold rho. apply sqrt_of_square. ring. }
    destruct (Rlt_dec 0 y) as [Hpos|Hpos]; [|destruct (Rlt_dec y 0) as [Hneg|Hneg]].
    + rewrite cos_PI2, sin_PI2, Hy, Rabs_pos_eq by lra. split; field; lra.
    + rewrite cos_neg, sin_neg, cos_PI2, sin_PI2, Hy, Rabs_left by lra.
      split; field; lra.
    + assert (y = 0) as Hz by lra. rewrite Hz, Rabs_R0 in Hy. lra.
Qed.

(** X12.  On the rim of the disk, [rho = r_sk], the formula of the inside
    already gives the background [(0, 0, chirality)]: the field has no
    jump between the skyrmion and the background. *)
Theorem s_skyrmion_rim r r_sk center helicity vorticity chirality :
  0 < r_sk ->
  sqrt ((r.1.1 - center.1) ^ 2 + (r.1.2 - center.2) ^ 2) = r_sk ->
  s_skyrmion r r_sk center helicity vorticity chirality = Ok (0, 0, chirality).
Proof.
  intros Hr Hrho. unfold s_skyrmion. rewrite py_div_nonzero, bind_Ok by lra.
  rewrite Hrho. replace (PI / r_sk * r_sk) with PI by (field; lra).
  rewrite sin_PI, cos_PI.
  destruct (Rle_dec r_sk r_sk) as [_|Hn]; [|lra].
  apply (f_equal Ok), vec3_eq; ring.
Qed.

Lemma s_skyrmion_rim_witness :
  s_skyrmion (2, 0, 0) 2 (0, 0) 0 1 1 = Ok (0, 0, 1).
Proof.
  apply (s_skyrmion_rim (2, 0, 0) 2 (0, 0) 0 1 1); [lra|].
  cbn [fst snd]. replace ((2 - 0) ^ 2 + (0 - 0) ^ 2) with (2 ^ 2) by ring.
  apply sqrt_pow2. lra.
Defined.

(** X13.  Adding [PI] to the helicity reverses the in-plane part of every
    spin and leaves its [z] component unchanged. *)
Theorem s_skyrmion_helicity_shift r r_sk center helicity vorticity chirality :
  s_skyrmion r r_sk center (helicity + PI) vorticity chirality
  = flip_xy <$> s_skyrmion r r_sk center helicity vorticity chirality.
Proof.
  unfold s_skyrmion, py_div. destruct (Req_dec_T r_sk 0); [done|].
  rewrite !bind_Ok. destruct (Rle_dec _ _); cbn [fmap res_fmap];
    unfold flip_xy; cbn [fst snd]; apply (f_equal Ok), vec3_eq;
    rewrite <- ?Rplus_assoc, ?neg_cos, ?neg_sin; ring.
Qed.





(** X16.  With chirality 0 every vector of the model is the zero vector;
    the guard [spin_n > 0] then skips the division and [get_spins] returns
    zero vectors. *)
Theorem get_spins_zero_chirality coordinates r_sk center helicity vorticity :
  r_sk <> 0 ->
  get_spins coordinates r_sk center helicity vorticity 0
  = Ok (replicate (length coordinates) (0, 0, 0)).
Proof.
  intros Hr. rewrite get_spins_rowwise.
  induction coordinates as [|r coordinates IH]; [done|].
  cbn [map_res]. rewrite IH, s_skyrmion_scale.
  destruct (s_skyrmion_unit r r_sk center helicity vorticity 1 Hr)
    as ([[a b] c] & -> & _); [by left|].
  cbn [fmap res_fmap]. rewrite !bind_Ok. simpl. do 2 f_equal.
  unfold normalise, divide_row, norm3, scale3. cbn [fst snd].
  replace ((0 * a) ^ 2 + (0 * b) ^ 2 + (0 * c) ^ 2) with 0 by ring.
  rewrite sqrt_0. destruct (Rlt_dec 0 0) as [Hn|_]; [lra|].
  apply vec3_eq; ring.
Qed.

Lemma get_spins_zero_chirality_witness :
  get_spins [(0, 0, 0); (3, 1, 0)] 2 (0, 0) 0 1 0
  = Ok (replicate 2 (0, 0, 0)).
Proof.
  apply (get_spins_zero_chirality [(0, 0, 0); (3, 1, 0)] 2 (0, 0) 0 1). lra.
Defined.



(** X18.  With the radius 0, [get_spins] raises [ZeroDivisionError] as soon
    as the lattice has a point. *)
Theorem get_spins_zero_radius coordinates center helicity vorticity chirality :
  coordinates <> [] ->
  get_spins coordinates 0 center helicity vorticity chirality
  = Raise ZeroDivisionError.
Proof.
  intros Hne. destruct coordinates as [|r coordinates]; [done|].
  rewrite get_spins_rowwise. cbn [map_res].
  by rewrite s_skyrmion_zero_radius.
Qed.

Lemma get_spins_zero_radius_witness :
  get_spins [(3, 1, 0)] 0 (0, 0) 0 1 1 = Raise ZeroDivisionError.
Proof. by apply get_spins_zero_radius. Defined.

(** X19.  The texture inside the disk, without angles.  For vorticity
    [v] = +1 or -1 and a position at [(x, y)] from the center, [0 < rho <=
    r_sk], the in-plane part of the spin is [chirality * sin(k*rho)] times
    the radial unit vector [(x, v*y) / rho] turned by the helicity:
    radial for helicity 0 (hedgehog), tangential for helicity [PI/2]
    (vortex); [v = -1] mirrors the pattern in the x axis. *)
Theorem s_skyrmion_polar r r_sk center helicity vorticity chirality :
  vorticity = 1 \/ vorticity = -1 ->
  let x := r.1.1 - center.1 in
  let y := r.1.2 - center.2 in
  let rho := sqrt (x ^ 2 + y ^ 2) in
  0 < rho -> rho <= r_sk ->
  s_skyrmion r r_sk center helicity vorticity chirality
  = Ok (chirality * sin (PI / r_sk * rho)
          * ((x * cos helicity - vorticity * y * sin helicity) / rho),
        chirality * sin (PI / r_sk * rho)
          * ((x * sin helicity + vorticity * y * cos helicity) / rho),
        - chirality * cos (PI / r_sk * rho)).
Proof.
  intros Hv x y rho Hpos Hin.
  destruct (arctan2_polar x y Hpos) as [Hcos Hsin]. fold rho in Hcos, Hsin.
  unfold s_skyrmion. fold x y rho. rewrite py_div_nonzero, bind_Ok by lra.
  destruct (Rle_dec rho r_sk) as [_|Hn]; [|done].
  apply (f_equal Ok), vec3_eq; [| |done].
  - f_equal. destruct Hv as [-> | ->].
    + rewrite Rmult_1_l, cos_plus, Hcos, Hsin. field. lra.
    + replace (-1 * arctan2 y x) with (- arctan2 y x) by ring.
      rewrite cos_plus, cos_neg, sin_neg, Hcos, Hsin. field. lra.
  - f_equal. destruct Hv as [-> | ->].
    + rewrite Rmult_1_l, sin_plus, Hcos, Hsin. field. lra.
    + replace (-1 * arctan2 y x) with (- arctan2 y x) by ring.
      rewrite sin_plus, cos_neg, sin_neg, Hcos, Hsin. field. lra.
Qed.

Lemma s_skyrmion_polar_witness :
  s_skyrmion (1, 0, 0) 2 (0, 0) (PI / 2) 1 1
  = Ok (1 * sin (PI / 2 * sqrt ((1 - 0) ^ 2 + (0 - 0) ^ 2))
          * (((1 - 0) * cos (PI / 2) - 1 * (0 - 0) * sin (PI / 2))
             / sqrt ((1 - 0) ^ 2 + (0 - 0) ^ 2)),
        1 * sin (PI / 2 * sqrt ((1 - 0) ^ 2 + (0 - 0) ^ 2))
          * (((1 - 0) * sin (PI / 2) + 1 * (0 - 0) * cos (PI / 2))
             / sqrt ((1 - 0) ^ 2 + (0 - 0) ^ 2)),
        - 1 * cos (PI / 2 * sqrt ((1 - 0) ^ 2 + (0 - 0) ^ 2))).
Proof.
  assert (sqrt ((1 - 0) ^ 2 + (0 - 0) ^ 2) = 1) as Hrho.
  { replace ((1 - 0) ^ 2 + (0 - 0) ^ 2) with 1 by ring. apply sqrt_1. }
  apply (s_skyrmion_polar (1, 0, 0) 2 (0, 0) (PI / 2) 1 1);
    cbn [fst snd]; [by left | rewrite Hrho; lra | rewrite Hrho; lra].
Defined.

End SpinTexture.

(** ** The setup cell *)

Section SetupCell.
Local Open Scope R_scope.

Lemma foldl_Rmax_spec x l m :
  m ∈ x :: l -> (forall y, y ∈ x :: l -> y <= m) -> foldl Rmax x l = m.
Proof.
  revert x. induction l as [|y l IH]; intros x Hin Hub.
  - apply list_elem_of_singleton in Hin. by subst.
  - cbn [foldl]. apply IH.
    + pose proof (Hub x ltac:(left)) as Hx.
      pose proof (Hub y ltac:(right; left)) as Hy.
      apply elem_of_cons in Hin as [-> | Hin].
      { rewrite Rmax_left by done. left. }
      apply elem_of_cons in Hin as [-> | Hin]; [|by right].
      rewrite Rmax_right by done. left.
    + intros z Hz. apply elem_of_cons in Hz as [-> | Hz].
      * apply Rmax_lub; apply Hub; [left | right; left].
      * apply Hub. right. by right.
Qed.

Lemma foldl_Rmin_spec x l m :
  m ∈ x :: l -> (forall y, y ∈ x :: l -> m <= y) -> foldl Rmin x l = m.
Proof.
  revert x. induction l as [|y l IH]; intros x Hin Hlb.
  - apply list_elem_of_singleton in Hin. by subst.
  - cbn [foldl]. apply IH.
    + pose proof (Hlb x ltac:(left)) as Hx.
      pose proof (Hlb y ltac:(right; left)) as Hy.
      apply elem_of_cons in Hin as [-> | Hin].
      { rewrite Rmin_left by done. left. }
      apply elem_of_cons in Hin as [-> | Hin]; [|by right].
      rewrite Rmin_right by done. left.
    + intros z Hz. apply elem_of_cons in Hz as [-> | Hz].
      * apply Rmin_glb; apply Hlb; [left | right; left].
      * apply Hlb. right. by right.
Qed.

Lemma midrange_between a lo hi :
  lo ∈ a -> hi ∈ a -> (forall y, y ∈ a -> lo <= y <= hi) ->
  midrange a = Ok ((hi - lo) * (1 / 2) + lo).
Proof.
  intros Hlo Hhi Hall. unfold midrange, np_max, np_min.
  destruct a as [|x a]; [by apply elem_of_nil in Hlo|].
  rewrite !bind_Ok.
  rewrite (foldl_Rmax_spec x a hi) by (done || intros y Hy; by apply Hall).
  by rewrite (foldl_Rmin_spec x a lo) by (done || intros y Hy; by apply Hall).
Qed.

Lemma midrange_nonempty a : a <> [] -> exists m, midrange a = Ok m.
Proof. intros Ha. destruct a as [|x a]; [done|]. by eexists. Qed.

Lemma lattice_center_nonempty (c : list vec3) :
  c <> [] -> exists center, lattice_center c = Ok center.
Proof.
  intros Hc. unfold lattice_center.
  destruct (midrange_nonempty ((fun p : vec3 => p.1.1) <$> c)) as [cx ->];
    [by destruct c|].
  destruct (midrange_nonempty ((fun p : vec3 => p.1.2) <$> c)) as [cy ->];
    [by destruct c|].
  by eexists.
Qed.

Lemma lattice_row_box nx ny radius i j :
  0 <= radius -> (0 <= i < nx)%Z -> (0 <= j < ny)%Z ->
  (radius <= (lattice_row radius i j).1.1 <= 2 * IZR nx * radius) /\
  (2 * radius * 2 / sqrt 3 / 2 <= (lattice_row radius i j).1.2
   <= (IZR ny - 1) * (sqrt 3 * radius) + 2 * radius * 2 / sqrt 3 / 2).
Proof.
  intros Hr Hi Hj. pose proof sqrt_3_pos as Hs.
  assert (0 <= IZR i <= IZR nx - 1) as Hi'.
  { rewrite <- minus_IZR. split; apply IZR_le; lia. }
  assert (0 <= IZR j <= IZR ny - 1) as Hj'.
  { rewrite <- minus_IZR. split; apply IZR_le; lia. }
  rewrite lattice_row_spec. unfold spec_point, spec_offset. cbn [fst snd].
  assert (0 <= sqrt 3 * radius) as Hdy by nra.
  split; [destruct (Z.even j); nra | nra].
Qed.

Lemma init_coordinates_elem nx ny radius c i j :
  init_coordinates nx ny radius = Ok c ->
  (0 <= i < nx)%Z -> (0 <= j < ny)%Z -> lattice_row radius i j ∈ c.
Proof.
  intros Hc Hi Hj.
  destruct (init_coordinates_ok nx ny radius) as (c' & Hc' & _ & Hrow); [nia|].
  rewrite Hc in Hc'. injection Hc' as <-.
  apply (list_elem_of_lookup_2 _ _ _ (Hrow i j Hi Hj)).
Qed.

Lemma init_coordinates_elem_inv nx ny radius c p :
  (1 <= nx)%Z -> (1 <= ny)%Z -> init_coordinates nx ny radius = Ok c ->
  p ∈ c ->
  exists i j, (0 <= i < nx)%Z /\ (0 <= j < ny)%Z /\ p = lattice_row radius i j.
Proof.
  intros Hnx Hny Hc Hp. apply list_elem_of_lookup_1 in Hp as [k Hk].
  destruct (init_coordinates_lookup nx ny radius c k p Hnx Hc Hk) as [Hr ->].
  exists (Z.of_nat k mod nx)%Z, (Z.of_nat k / nx)%Z.
  split; [apply Z.mod_pos_bound; lia|]. split; [|done].
  split; [apply Z.div_pos; lia | apply Z.div_lt_upper_bound; lia].
Qed.

(** X20.  Every point of the lattice has [z = 0] and, for a radius that is
    not negative, lies in the box [radius <= x <= 2*nx*radius],
    [h/2 <= y <= (ny-1)*dy + h/2], with [dy = sqrt(3)*radius] and
    [h/2 = 2*radius*2/sqrt(3)/2]. *)
Theorem lattice_bounding_box nx ny radius c (p : vec3) :
  (1 <= nx)%Z -> (1 <= ny)%Z -> 0 <= radius ->
  init_coordinates nx ny radius = Ok c -> p ∈ c ->
  p.2 = 0 /\
  radius <= p.1.1 <= 2 * IZR nx * radius /\
  2 * radius * 2 / sqrt 3 / 2 <= p.1.2
    <= (IZR ny - 1) * (sqrt 3 * radius) + 2 * radius * 2 / sqrt 3 / 2.
Proof.
  intros Hnx Hny Hr Hc Hp.
  destruct (init_coordinates_elem_inv nx ny radius c p Hnx Hny Hc Hp)
    as (i & j & Hi & Hj & ->).
  split; [done|]. by apply lattice_row_box.
Qed.

Lemma lattice_bounding_box_witness :
  (lattice_row 1 1 0).2 = 0 /\
  1 <= (lattice_row 1 1 0).1.1 <= 2 * 2 * 1 /\
  2 * 1 * 2 / sqrt 3 / 2 <= (lattice_row 1 1 0).1.2
    <= (1 - 1) * (sqrt 3 * 1) + 2 * 1 * 2 / sqrt 3 / 2.
Proof.
  apply (lattice_bounding_box 2 1 1 [lattice_row 1 0 0; lattice_row 1 1 0]);
    [lia | lia | lra | reflexivity | right; left].
Defined.

(** X21.  The center the setup cell computes.  For a lattice of at least
    two rows and a radius that is not negative, the middle of the bounding
    box of the lattice points is
    [(nx*radius + radius/2, (ny-1)*dy/2 + h/2)]. *)
Theorem lattice_center_formula nx ny radius c :
  (1 <= nx)%Z -> (2 <= ny)%Z -> 0 <= radius ->
  init_coordinates nx ny radius = Ok c ->
  lattice_center c
  = Ok (IZR nx * radius + radius / 2,
        (IZR ny - 1) * (sqrt 3 * radius) / 2 + 2 * radius * 2 / sqrt 3 / 2).
Proof.
  intros Hnx Hny Hr Hc. pose proof sqrt_3_pos as Hs.
  assert (forall p, p ∈ c ->
            (radius <= p.1.1 <= 2 * IZR nx * radius) /\
            (2 * radius * 2 / sqrt 3 / 2 <= p.1.2
             <= (IZR ny - 1) * (sqrt 3 * radius) + 2 * radius * 2 / sqrt 3 / 2))
    as Hbox.
  { intros p Hp.
    destruct (init_coordinates_elem_inv nx ny radius c p Hnx ltac:(lia) Hc Hp)
      as (i & j & Hi & Hj & ->).
    by apply lattice_row_box. }
  unfold lattice_center.
  rewrite (midrange_between ((fun p : vec3 => p.1.1) <$> c)
             radius (2 * IZR nx * radius)).
  - rewrite (midrange_between ((fun p : vec3 => p.1.2) <$> c)
               (2 * radius * 2 / sqrt 3 / 2)
               ((IZR ny - 1) * (sqrt 3 * radius) + 2 * radius * 2 / sqrt 3 / 2)).
    + rewrite !bind_Ok. apply (f_equal Ok). f_equal; field; lra.
    + apply (list_elem_of_fmap_2' _ _ (lattice_row radius 0 0));
        [apply (init_coordinates_elem nx ny); [done|lia|lia]|].
      unfold lattice_row. cbn [fst snd]. field. lra.
    + apply (list_elem_of_fmap_2' _ _ (lattice_row radius 0 (ny - 1)));
        [apply (init_coordinates_elem nx ny); [done|lia|lia]|].
      unfold lattice_row. cbn [fst snd]. rewrite minus_IZR. field. lra.
    + intros y Hy. apply list_elem_of_fmap_1 in Hy as (p & -> & Hp).
      apply (Hbox p Hp).
  - apply (list_elem_of_fmap_2' _ _ (lattice_row radius 0 1));
      [apply (init_coordinates_elem nx ny); [done|lia|lia]|].
    rewrite lattice_row_spec. unfold spec_point, spec_offset.
    change (Z.even 1) with false. cbn [fst snd]. field.
  - apply (list_elem_of_fmap_2' _ _ (lattice_row radius (nx - 1) 0));
      [apply (init_coordinates_elem nx ny); [done|lia|lia]|].
    rewrite lattice_row_spec. unfold spec_point, spec_offset.
    change (Z.even 0) with true. cbn [fst snd]. rewrite minus_IZR. field.
  - intros x Hx. apply list_elem_of_fmap_1 in Hx as (p & -> & Hp).
    apply (Hbox p Hp).
Qed.

Lemma lattice_center_formula_witness :
  lattice_center [lattice_row 1 0 0; lattice_row 1 0 1]
  = Ok (1 * 1 + 1 / 2, (2 - 1) * (sqrt 3 * 1) / 2 + 2 * 1 * 2 / sqrt 3 / 2).
Proof.
  apply (lattice_center_formula 1 2 1); [lia | lia | lra | reflexivity].
Defined.

(** X22.  What the setup cell does for every grid, radius and skyrmion
    radius.  It runs to the end exactly when [nx >= 1], [ny >= 1] and
    [r_sk <> 0], and then yields the lattice of [init_coordinates], one
    cell and one spin of norm 1 per lattice point.  With [nx*ny <= 0] it
    stops with [ValueError] (from [np.zeros], or from the maximum of an
    empty column), with two negative dimensions with [IndexError] (in
    [init_corners]), and with [r_sk = 0] with [ZeroDivisionError]. *)
Theorem setup_outcome nx ny radius r_sk :
  match setup nx ny radius r_sk with
  | Ok (c, corners, spin) =>
      (1 <= nx)%Z /\ (1 <= ny)%Z /\ r_sk <> 0 /\
      init_coordinates nx ny radius = Ok c /\
      Z.of_nat (length c) = (nx * ny)%Z /\
      length corners = length c /\
      length spin = length c /\
      Forall (fun s => norm3 s = 1) spin
  | Raise ValueError => (nx * ny <= 0)%Z
  | Raise IndexError => (nx < 0)%Z /\ (ny < 0)%Z
  | Raise ZeroDivisionError => (1 <= nx)%Z /\ (1 <= ny)%Z /\ r_sk = 0
  end.
Proof.
  unfold setup.
  destruct (Z.lt_ge_cases (nx * ny) 0) as [Hneg|Hpos].
  { rewrite init_coordinates_raises by done. simpl. lia. }
  destruct (init_coordinates_ok nx ny radius Hpos) as (c & Hc & Hlen & _).
  rewrite Hc, bind_Ok.
  destruct (Z.eq_dec (nx * ny)%Z 0%Z) as [Hz|Hnz].
  { assert (c = []) as -> by (apply nil_length_inv; lia). simpl. lia. }
  assert (c <> []) as Hne by (intros ->; simpl in Hlen; lia).
  assert (1 <= nx * ny)%Z as Hn by lia.
  destruct (lattice_center_nonempty c Hne) as [center ->]. rewrite bind_Ok.
  destruct (Z.lt_ge_cases nx 1) as [Hnx|Hnx].
  { rewrite init_corners_loop, iterations_empty by lia. simpl.
    assert (nx < 0)%Z as Hnx' by (destruct (Z.eq_dec nx 0%Z) as [-> | ?]; lia).
    split; [done|]. destruct (Z.lt_ge_cases ny 0%Z) as [Hny|Hny]; [done|].
    pose proof (Z.mul_nonpos_nonneg nx ny ltac:(lia) Hny). lia. }
  assert (1 <= ny)%Z as Hny by nia.
  rewrite init_corners_reads_c by (done || lia). rewrite bind_Ok.
  destruct (Req_dec_T r_sk 0) as [-> | Hr].
  - rewrite get_spins_rowwise. destruct c as [|p c']; [done|].
    cbn [map_res]. rewrite s_skyrmion_zero_radius. simpl. done.
  - destruct (get_spins_rows_unit c r_sk center 0 1 1 Hr)
      as (spin & -> & Hspin & Hunit); [by left|].
    rewrite bind_Ok. repeat split; try done; [lia | by rewrite length_fmap].
Qed.

End SetupCell.
